(** * Attachment classification pipeline: model and verified properties

    A shallow embedding of the deterministic parts of
    [classify_attachments.py] and [evaluate.py]:

    - [extract_html_body_and_attachments]: the walk over the parts of a
      parsed message that captures the HTML body and the attachment names;
    - [parse_llm_response]: extraction of the JSON answer and the validation
      stage that turns two untrusted lists into a two-way classification
      (called [repair] here, lines 231-270 of the function);
    - [classify_attachments]: the [try]/[except] boundary around the model
      call and its fallback;
    - [evaluate_classification] and the aggregation block of [main] in
      [evaluate.py].

    Conventions.  A Python [str] is a Rocq [string] holding its UTF-8 bytes,
    so that the order used by [sorted] (code points) is the byte-wise order
    [String.le].  A Python [set] of strings is a [gset string]; a [dict]
    keyed by strings is a [gmap]; a [float] is a binary64 [float].  Raising
    is modelled by the [outcome] type.  Console output ([print]) is not
    modelled.  What belongs to libraries (the JSON decoder, the HTTP call,
    the regular-expression engine on header values, byte decoding) enters
    as section variables. *)

From Stdlib Require Import Floats Ascii.
From stdpp Require Import gmap strings list sorting.

Set Warnings "-register-all,-clear-no-such-hyp".

(** ** Python notions shared by both scripts *)

(** The exception classes that matter at the [try]/[except] boundaries.
    [KeyboardInterrupt] stands for the classes that derive from
    [BaseException] only, which [except Exception] lets through. *)
Inductive exn :=
  | JSONDecodeError
  | RequestException
  | TypeError
  | AttributeError
  | ZeroDivisionError
  | OtherException
  | KeyboardInterrupt.

Inductive outcome (A : Type) :=
  | Return (a : A)
  | Raise (e : exn).
Arguments Return {A} a.
Arguments Raise {A} e.

#[global] Instance outcome_ret : MRet outcome := @Return.

#[global] Instance outcome_bind : MBind outcome := λ A B k x,
  match x with
  | Return a => k a
  | Raise e => Raise e
  end.

(** [isinstance(e, Exception)]. *)
Definition is_Exception (e : exn) : bool :=
  match e with
  | KeyboardInterrupt => false
  | _ => true
  end.

(** [sorted(l)] on a list of [str]. *)
Definition sorted (l : list string) : list string := merge_sort String.le l.

(** A [Dict[str, List[str]]], the shape of a classification and of a ground
    truth file. *)
Abbreviation pydict := (gmap string (list string)).

(** [d.get(key, [])]. *)
Definition get (d : pydict) (key : string) : list string :=
  default [] (d !! key).

(** The dict literal [{"relevant": r, "irrelevant": i}]. *)
Definition classification (r i : list string) : pydict :=
  <["relevant" := r]> (<["irrelevant" := i]> ∅).

(** ** [parse_llm_response]: the validation stage *)

Section validation.
(** [list(s)] for a set [s]: Python fixes no iteration order for sets, so
    the enumeration is a parameter. *)
Variable list_of_set : gset string → list string.

(** Lines 231-270 of [parse_llm_response], from the two lists read out of
    the answer to the returned dict. *)
Definition repair (relevant irrelevant attachment_filenames : list string)
    : pydict :=
  let relevant_set : gset string := list_to_set relevant in
  let irrelevant_set : gset string := list_to_set irrelevant in
  let relevant :=
    if decide (length relevant ≠ size relevant_set)
    then list_of_set relevant_set else relevant in
  let irrelevant :=
    if decide (length irrelevant ≠ size irrelevant_set)
    then list_of_set irrelevant_set else irrelevant in
  let overlap := relevant_set ∩ irrelevant_set in
  let irrelevant :=
    if decide (overlap ≠ ∅)
    then list_of_set (irrelevant_set ∖ overlap) else irrelevant in
  let all_attachments : gset string := list_to_set attachment_filenames in
  let relevant := filter (λ a, a ∈ all_attachments) relevant in
  let irrelevant := filter (λ a, a ∈ all_attachments) irrelevant in
  let all_classified : gset string := list_to_set (relevant ++ irrelevant) in
  let missing := all_attachments ∖ all_classified in
  let irrelevant :=
    if decide (missing ≠ ∅)
    then irrelevant ++ list_of_set missing else irrelevant in
  classification (sorted relevant) (sorted irrelevant).
End validation.

(** ** [parse_llm_response]: locating and reading the JSON answer *)

(** [re.search(r'\{[\s\S]*\}', s)].  The greedy [[\s\S]*] followed by [\}]
    matches, from a given position, the longest stretch that ends in a
    closing brace. *)
Fixpoint greedy_to_close (s : string) : option string :=
  match s with
  | EmptyString => None
  | String c s' =>
      match greedy_to_close s' with
      | Some m => Some (String c m)
      | None => if decide (c = "}"%char) then Some (String c EmptyString) else None
      end
  end.

(** The search tries the start positions from left to right; a match has an
    opening brace there and a closing brace somewhere after it.  Braces are
    ASCII, so matching on UTF-8 bytes and on code points agree. *)
Fixpoint search_braces (s : string) : option string :=
  match s with
  | EmptyString => None
  | String c s' =>
      if decide (c = "{"%char) then
        match greedy_to_close s' with
        | Some m => Some (String c m)
        | None => search_braces s'
        end
      else search_braces s'
  end.

(** Lines 221-223: the text handed to [json.loads]. *)
Definition json_candidate (response_text : string) : string :=
  match search_braces response_text with
  | Some json_match => json_match
  | None => response_text
  end.

(** What [json.loads] returns: [None], [bool], [int], [float], [str],
    [list], [dict]. *)
Inductive json :=
  | JNull
  | JBool (b : bool)
  | JInt (z : Z)
  | JFloat (f : float)
  | JString (s : string)
  | JArray (xs : list json)
  | JObject (kvs : gmap string json).

(** [result.get(key, [])]: only a dict has [get]. *)
Definition json_get (result : json) (key : string) : outcome json :=
  match result with
  | JObject kvs => Return (default (JArray []) (kvs !! key))
  | _ => Raise AttributeError
  end.

(** [hash(v)] succeeds: lists and dicts are unhashable. *)
Definition hashable (v : json) : bool :=
  match v with
  | JArray _ | JObject _ => false
  | _ => true
  end.

Definition as_str (v : json) : option string :=
  match v with
  | JString s => Some s
  | _ => None
  end.

(** Iterating a [str] yields its characters.  On the UTF-8 bytes a
    character is a byte that is no continuation byte (10xxxxxx) together
    with the continuation bytes after it. *)
Definition is_continuation_byte (c : ascii) : bool :=
  let n := N_of_ascii c in
  bool_decide (128 ≤ n)%N && bool_decide (n < 192)%N.

Fixpoint chars_from (s : string) : string * list string :=
  match s with
  | EmptyString => (EmptyString, [])
  | String c s' =>
      let '(continuation, rest) := chars_from s' in
      if is_continuation_byte c then (String c continuation, rest)
      else (EmptyString, String c continuation :: rest)
  end.

Definition str_chars (s : string) : list string :=
  let '(continuation, rest) := chars_from s in
  if decide (continuation = EmptyString) then rest else continuation :: rest.

(** The value stored under "relevant" or "irrelevant" as the validation
    stage sees it.  [set(v)] raises [TypeError] when [v] is not iterable or
    holds an unhashable item, and iterating a dict yields its keys.  Items
    that are not strings (numbers, booleans, [None]) are left out: they
    never equal a filename, so the membership filter of lines 255-256
    removes them, and before it they take part only in the duplicate and
    overlap tests, whose effect on the strings is a reordering. *)
Definition candidates (v : json) : outcome (list string) :=
  match v with
  | JArray xs =>
      if forallb hashable xs then Return (omap as_str xs) else Raise TypeError
  | JString s => Return (str_chars s)
  | JObject kvs => Return (elements (dom kvs))
  | _ => Raise TypeError
  end.

Section orchestrator.
Variable list_of_set : gset string → list string.
(** [json.loads]. *)
Variable json_loads : string → outcome json.
(** Lines 289-301 of [classify_attachments]: the cleaned and truncated
    body and the JSON-encoded filenames set into the prompt template. *)
Variable build_prompt : string → list string → string.
(** [call_llm_api(prompt, api_key)]: one HTTP exchange, which may raise. *)
Variable call_llm_api : string → string → outcome string.

Definition parse_llm_response (response_text : string)
    (attachment_filenames : list string) : outcome pydict :=
  let response_text := json_candidate response_text in
  result ← json_loads response_text;
  relevant ← json_get result "relevant";
  irrelevant ← json_get result "irrelevant";
  relevant ← candidates relevant;
  irrelevant ← candidates irrelevant;
  Return (repair list_of_set relevant irrelevant attachment_filenames).

(** The value all three handlers return. *)
Definition fallback (attachment_filenames : list string) : pydict :=
  classification [] (sorted attachment_filenames).

Definition classify_attachments (html_body : string)
    (attachment_filenames : list string) (api_key : string)
    : outcome pydict :=
  match attachment_filenames with
  | [] => Return (classification [] [])
  | _ =>
      let prompt := build_prompt html_body attachment_filenames in
      let tried :=
        response_text ← call_llm_api prompt api_key;
        parse_llm_response response_text attachment_filenames in
      match tried with
      | Return result => Return result
      | Raise JSONDecodeError => Return (fallback attachment_filenames)
      | Raise RequestException => Return (fallback attachment_filenames)
      | Raise e =>
          if is_Exception e then Return (fallback attachment_filenames)
          else Raise e
      end
  end.
End orchestrator.

(** ** [extract_html_body_and_attachments] *)

(** What [part.get(name, "")] returns under the policy of
    [message_from_bytes]: a [str], or an [email.header.Header] object when
    the header line holds raw bytes that are not ASCII.  The loop never
    looks inside such an object. *)
Inductive header_value :=
  | Str (s : string)
  | HeaderObject.

(** The truth value of [v] in an [if]: a [str] is true when it is not
    empty; a [Header] has neither [__bool__] nor [__len__] and is true. *)
Definition truthy (v : header_value) : bool :=
  match v with
  | Str s => bool_decide (s ≠ EmptyString)
  | HeaderObject => true
  end.

(** [re.search(pattern, v, re.IGNORECASE)], for the search [search] of the
    pattern in a [str]: on anything that is no [str] it raises
    [TypeError]. *)
Definition re_search (search : string → option string) (v : header_value)
    : outcome (option string) :=
  match v with
  | Str s => Return (search s)
  | HeaderObject => Raise TypeError
  end.

(** What the loop reads from a part: [part.get_content_type()], which is
    always a [str], [part.get("Content-Disposition", "")] and
    [part.get("Content-Type", "")]. *)
Record headers := {
  content_type : string;
  content_disposition : header_value;
  content_type_header : header_value;
}.

(** A parsed message: a leaf with its payload as
    [get_payload(decode=True)] returns it, or a container of parts. *)
Inductive Message :=
  | Leaf (h : headers) (payload : list Byte.byte)
  | Multipart (h : headers) (parts : list Message).

Definition part_headers (part : Message) : headers :=
  match part with
  | Leaf h _ | Multipart h _ => h
  end.

(** [part.get_payload(decode=True)] is [None] on a container. *)
Definition get_payload (part : Message) : option (list Byte.byte) :=
  match part with
  | Leaf _ payload => Some payload
  | Multipart _ _ => None
  end.

(** [msg.walk()]: the message itself, then the walk of each part in order. *)
Fixpoint walk (msg : Message) : list Message :=
  match msg with
  | Leaf _ _ => [msg]
  | Multipart _ parts => msg :: concat (map walk parts)
  end.

(** [s.strip(...)] with the two quote characters (apostrophe and double
    quote) as the set to strip: they are removed from both ends. *)
Definition is_quote (c : ascii) : bool :=
  bool_decide (c = "'"%char) || bool_decide (c = "034"%char).

Fixpoint lstrip_quotes (s : string) : string :=
  match s with
  | EmptyString => EmptyString
  | String c s' => if is_quote c then lstrip_quotes s' else s
  end.

Fixpoint rstrip_quotes (s : string) : string :=
  match s with
  | EmptyString => EmptyString
  | String c s' =>
      match rstrip_quotes s' with
      | EmptyString => if is_quote c then EmptyString else String c EmptyString
      | r => String c r
      end
  end.

Definition strip_quotes (s : string) : string :=
  rstrip_quotes (lstrip_quotes s).

Section extraction.
Variable list_of_set : gset string → list string.
(** [payload.decode('utf-8', errors='ignore')]: it drops what it cannot
    decode and does not raise, so the [except] branches of lines 38-42
    are never entered. *)
Variable decode_utf8_ignore : list Byte.byte → string.
(** Group 1 of the [filename=] search in a Content-Disposition value and
    of the [name=] search in a Content-Type value; the [re.match] of the
    naming convention (lines 55, 63 and 69). *)
Variable search_filename : string → option string.
Variable search_name : string → option string.
Variable matches_convention : string → bool.

(** One iteration of the loop of lines 28-70 on the pair
    [(html_body, attachments)].  The two searches raise when the header
    value they are given is no [str]. *)
Definition visit (state : string * list string) (part : Message)
    : outcome (string * list string) :=
  let '(html_body, attachments) := state in
  let content_type := content_type (part_headers part) in
  let content_disposition := content_disposition (part_headers part) in
  let html_body :=
    if decide (content_type = "text/html" ∧ html_body = EmptyString) then
      match get_payload part with
      | Some ((_ :: _) as payload) => decode_utf8_ignore payload
      | _ => html_body
      end
    else html_body in
  if decide (content_type ≠ "text/html") then
    if truthy content_disposition
       || String.prefix "application/" content_type
       || String.prefix "image/" content_type
       || String.prefix "video/" content_type
       || String.prefix "audio/" content_type
    then
      let filename : option string := None in
      filename ←
        (if truthy content_disposition then
           filename_match ← re_search search_filename content_disposition;
           Return (match filename_match with
                   | Some group1 => Some (strip_quotes group1)
                   | None => filename
                   end)
         else Return filename);
      filename ←
        (if decide (filename = None ∨ filename = Some EmptyString) then
           filename_match ←
             re_search search_name (content_type_header (part_headers part));
           Return (match filename_match with
                   | Some group1 => Some (strip_quotes group1)
                   | None => filename
                   end)
         else Return filename);
      Return (html_body,
              match filename with
              | Some name =>
                  if bool_decide (name ≠ EmptyString) && matches_convention name
                  then attachments ++ [name] else attachments
              | None => attachments
              end)
    else Return (html_body, attachments)
  else Return (html_body, attachments).

(** The [for] loop: an iteration that raises ends it. *)
Fixpoint visit_all (state : string * list string) (parts : list Message)
    : outcome (string * list string) :=
  match parts with
  | [] => Return state
  | part :: rest => state' ← visit state part; visit_all state' rest
  end.

(** From the parsed message on (reading the file and parsing it are the
    library's). *)
Definition extract_html_body_and_attachments (msg : Message)
    : outcome (string * list string) :=
  '(html_body, attachments) ← visit_all (EmptyString, []) (walk msg);
  Return (html_body, sorted (list_of_set (list_to_set attachments))).
End extraction.

(** ** [evaluate.py] *)

(** The dict [evaluate_classification] returns. *)
Record evaluation := {
  true_positives : nat;
  true_negatives : nat;
  false_positives : nat;
  false_negatives : nat;
  accuracy : float;
  precision : float;
  recall : float;
  f1_score : float;
  missing_attachments : list string;
  extra_attachments : list string;
}.

(** [float(n)] for a count; exact below 2^53. *)
Definition float_of_int (n : nat) : float :=
  PrimFloat.of_uint63 (Uint63.of_Z (Z.of_nat n)).

(** [a / b] on two [int]s: the quotient rounded to a float, or
    [ZeroDivisionError].  For counts below 2^53 the rounded quotient is the
    quotient of the two conversions. *)
Definition int_truediv (a b : nat) : outcome float :=
  if decide (b = 0) then Raise ZeroDivisionError
  else Return (float_of_int a / float_of_int b)%float.

(** [x / y] on two [float]s. *)
Definition float_truediv (x y : float) : outcome float :=
  if (y =? 0)%float then Raise ZeroDivisionError
  else Return (x / y)%float.

Section evaluation.
Variable list_of_set : gset string → list string.

Definition evaluate_classification (predicted ground_truth : pydict)
    : outcome evaluation :=
  let pred_relevant : gset string := list_to_set (get predicted "relevant") in
  let pred_irrelevant : gset string := list_to_set (get predicted "irrelevant") in
  let gt_relevant : gset string := list_to_set (get ground_truth "relevant") in
  let gt_irrelevant : gset string := list_to_set (get ground_truth "irrelevant") in
  let pred_all := pred_relevant ∪ pred_irrelevant in
  let gt_all := gt_relevant ∪ gt_irrelevant in
  let tp := size (pred_relevant ∩ gt_relevant) in
  let tn := size (pred_irrelevant ∩ gt_irrelevant) in
  let fp := size (pred_relevant ∩ gt_irrelevant) in
  let fn := size (pred_irrelevant ∩ gt_relevant) in
  let total := tp + tn + fp + fn in
  accuracy ←
    (if decide (0 < total) then int_truediv (tp + tn) total else Return 0%float);
  precision ←
    (if decide (0 < tp + fp) then int_truediv tp (tp + fp) else Return 0%float);
  recall ←
    (if decide (0 < tp + fn) then int_truediv tp (tp + fn) else Return 0%float);
  f1 ←
    (if (0 <? precision + recall)%float
     then float_truediv (2 * (precision * recall)) (precision + recall)
     else Return 0%float);
  let missing := gt_all ∖ pred_all in
  let extra := pred_all ∖ gt_all in
  Return {|
    true_positives := tp;
    true_negatives := tn;
    false_positives := fp;
    false_negatives := fn;
    accuracy := accuracy;
    precision := precision;
    recall := recall;
    f1_score := f1;
    missing_attachments := sorted (list_of_set missing);
    extra_attachments := sorted (list_of_set extra);
  |}.
End evaluation.

(** [sum(m[key] for m in all_metrics)]: from 0, adding from left to right. *)
Definition sum_of (key : evaluation → nat) (all_metrics : list evaluation) : nat :=
  foldl (λ acc m, acc + key m) 0 all_metrics.

(** The values computed by the "overall metrics" block of [main]. *)
Record overall := {
  total_tp : nat;
  total_tn : nat;
  total_fp : nat;
  total_fn : nat;
  overall_accuracy : float;
  overall_precision : float;
  overall_recall : float;
  overall_f1 : float;
}.

(** Lines 133-146 of [main]; nothing is computed when no message was
    evaluated. *)
Definition overall_metrics (all_metrics : list evaluation)
    : outcome (option overall) :=
  match all_metrics with
  | [] => Return None
  | _ =>
      let total_tp := sum_of true_positives all_metrics in
      let total_tn := sum_of true_negatives all_metrics in
      let total_fp := sum_of false_positives all_metrics in
      let total_fn := sum_of false_negatives all_metrics in
      overall_accuracy ←
        (if decide (0 < total_tp + total_tn + total_fp + total_fn)
         then int_truediv (total_tp + total_tn)
                          (total_tp + total_tn + total_fp + total_fn)
         else Return 0%float);
      overall_precision ←
        (if decide (0 < total_tp + total_fp)
         then int_truediv total_tp (total_tp + total_fp) else Return 0%float);
      overall_recall ←
        (if decide (0 < total_tp + total_fn)
         then int_truediv total_tp (total_tp + total_fn) else Return 0%float);
      overall_f1 ←
        (if (0 <? overall_precision + overall_recall)%float
         then float_truediv (2 * (overall_precision * overall_recall))
                            (overall_precision + overall_recall)
         else Return 0%float);
      Return (Some {|
        total_tp := total_tp;
        total_tn := total_tn;
        total_fp := total_fp;
        total_fn := total_fn;
        overall_accuracy := overall_accuracy;
        overall_precision := overall_precision;
        overall_recall := overall_recall;
        overall_f1 := overall_f1;
      |})
  end.

(** ** Vocabulary of the statements *)

(** [l] lists the members of [X], each once. *)
Definition enumerates (l : list string) (X : gset string) : Prop :=
  NoDup l ∧ ∀ x, x ∈ l ↔ x ∈ X.

(** The ids a list names. *)
Definition ids (l : list string) : gset string := list_to_set l.

(** [c] occurs in [s]. *)
Fixpoint has_char (c : ascii) (s : string) : bool :=
  match s with
  | EmptyString => false
  | String c' s' => bool_decide (c' = c) || has_char c s'
  end.

(** The double quote character, and a JSON string literal without
    escapes. *)
Definition dquote : string := String "034"%char EmptyString.

Definition quoted (s : string) : string := dquote +:+ s +:+ dquote.

(** The reading of "the first top-level brace-delimited JSON object found
    anywhere in the text", to be compared with [json_candidate]: from an
    opening brace, the stretch up to the brace that closes it, braces being
    counted outside string literals only.  [depth] counts the objects opened
    inside the one being read; [in_string] and [escaped] track string
    literals and backslash escapes in them. *)
Fixpoint balanced_span (depth : nat) (in_string escaped : bool) (s : string)
    : option string :=
  match s with
  | EmptyString => None
  | String c s' =>
      String c <$>
        (if in_string then
           if escaped then balanced_span depth true false s'
           else if bool_decide (c = "092"%char) then balanced_span depth true true s'
           else if bool_decide (c = "034"%char) then balanced_span depth false false s'
           else balanced_span depth true false s'
         else if bool_decide (c = "034"%char) then balanced_span depth true false s'
         else if bool_decide (c = "{"%char) then balanced_span (S depth) false false s'
         else if bool_decide (c = "}"%char) then
           match depth with
           | 0 => Some EmptyString
           | S depth' => balanced_span depth' false false s'
           end
         else balanced_span depth false false s')
  end.

Fixpoint first_json_object (s : string) : option string :=
  match s with
  | EmptyString => None
  | String c s' =>
      if bool_decide (c = "{"%char) then
        match balanced_span 0 false false s' with
        | Some span => Some (String c span)
        | None => first_json_object s'
        end
      else first_json_object s'
  end.

(** An answer with a remark after the object. *)
Definition answer_object : string :=
  "{" +:+ quoted "relevant" +:+ ": [" +:+ quoted "a.pdf" +:+ "], "
      +:+ quoted "irrelevant" +:+ ": []}".

Definition answer_with_remark : string :=
  answer_object +:+ " (an empty list is written [], not {})".

(** Stand-ins for the collaborators, used to exhibit runs: a decoder that
    knows the empty object only, a decoder that rejects every text, a model
    call that answers with a fixed text, and one whose request fails. *)
Definition loads_empty_object (s : string) : outcome json :=
  if decide (s = "{}") then Return (JObject ∅) else Raise JSONDecodeError.

Definition loads_nothing (s : string) : outcome json := Raise JSONDecodeError.

Definition answering (text : string) (prompt api_key : string) : outcome string :=
  Return text.

Definition failing_request (prompt api_key : string) : outcome string :=
  Raise RequestException.

Definition plain_prompt (html_body : string) (attachment_filenames : list string)
    : string :=
  html_body.

(** The two readings of "the HTML part that gives the body".  [is_html]
    is the test of the content type alone; [captures] adds what the loop
    also asks before it keeps a body: a payload that is not empty and whose
    decoded text is not empty. *)
Definition is_html (part : Message) : bool :=
  bool_decide (content_type (part_headers part) = "text/html").

Definition part_text (decode : list Byte.byte → string) (part : Message) : string :=
  match get_payload part with
  | Some payload => decode payload
  | None => EmptyString
  end.

Definition captures (decode : list Byte.byte → string) (part : Message) : bool :=
  is_html part
  && match get_payload part with
     | Some ((_ :: _) as payload) => bool_decide (decode payload ≠ EmptyString)
     | _ => false
     end.

Definition body_of_first (select : Message → bool)
    (decode : list Byte.byte → string) (msg : Message) : string :=
  match find select (walk msg) with
  | Some part => part_text decode part
  | None => EmptyString
  end.

(** A message with two HTML alternatives, the first one empty. *)
Definition html_headers : headers :=
  {| content_type := "text/html";
     content_disposition := Str EmptyString;
     content_type_header := Str "text/html; charset=utf-8" |}.

Definition two_html_parts : Message :=
  Multipart
    {| content_type := "multipart/alternative";
       content_disposition := Str EmptyString;
       content_type_header := Str "multipart/alternative" |}
    [ Leaf html_headers [];
      Leaf html_headers (String.list_byte_of_string "<p>second</p>") ].

(** Stand-ins for the library calls of the extraction: on well-formed UTF-8
    the decoded text has the bytes of the payload; header searches that
    find nothing. *)
Definition decode_wellformed (payload : list Byte.byte) : string :=
  String.string_of_list_byte payload.

Definition no_match (value : string) : option string := None.

Definition no_convention (name : string) : bool := false.

(** The four ratios as a function of four counts, each 0.0 when its
    denominator is not positive: what lines 36-47 of
    [evaluate_classification] and lines 143-146 of [main] both write out. *)
Record ratios := {
  ratio_accuracy : float;
  ratio_precision : float;
  ratio_recall : float;
  ratio_f1 : float;
}.

Definition guarded_ratio (numerator denominator : nat) : float :=
  if decide (denominator = 0) then 0%float
  else (float_of_int numerator / float_of_int denominator)%float.

Definition metric_ratios (tp tn fp fn : nat) : ratios :=
  let p := guarded_ratio tp (tp + fp) in
  let r := guarded_ratio tp (tp + fn) in
  {| ratio_accuracy := guarded_ratio (tp + tn) (tp + tn + fp + fn);
     ratio_precision := p;
     ratio_recall := r;
     ratio_f1 := if (0 <? p + r)%float then (2 * (p * r) / (p + r))%float
                 else 0%float |}.

(** Two evaluated messages with counts (tp, tn, fp, fn) = (1, 1, 0, 1) and
    (2, 0, 1, 0). *)
Definition first_message : outcome evaluation :=
  evaluate_classification elements
    (classification ["a.pdf"] ["b.png"; "c.pdf"])
    (classification ["a.pdf"; "c.pdf"] ["b.png"]).

Definition second_message : outcome evaluation :=
  evaluate_classification elements
    (classification ["x.pdf"; "y.pdf"; "z.png"] [])
    (classification ["x.pdf"; "y.pdf"] ["z.png"]).

(** The four counts of an evaluated message, their element-wise sum over a
    list of messages, and the overall record made from four counts by
    applying the ratios once. *)
Definition counts (m : evaluation) : nat * nat * nat * nat :=
  (true_positives m, true_negatives m, false_positives m, false_negatives m).

Definition add_counts (c d : nat * nat * nat * nat) : nat * nat * nat * nat :=
  let '(tp, tn, fp, fn) := c in
  let '(tp', tn', fp', fn') := d in
  (tp + tp', tn + tn', fp + fp', fn + fn').

Definition summed_counts (all_metrics : list evaluation) : nat * nat * nat * nat :=
  foldr (λ m acc, add_counts (counts m) acc) (0, 0, 0, 0) all_metrics.

Definition overall_of (c : nat * nat * nat * nat) : overall :=
  let '(tp, tn, fp, fn) := c in
  {| total_tp := tp;
     total_tn := tn;
     total_fp := fp;
     total_fn := fn;
     overall_accuracy := ratio_accuracy (metric_ratios tp tn fp fn);
     overall_precision := ratio_precision (metric_ratios tp tn fp fn);
     overall_recall := ratio_recall (metric_ratios tp tn fp fn);
     overall_f1 := ratio_f1 (metric_ratios tp tn fp fn) |}.

(** Further stand-ins: a decoder whose every result is a JSON list, a model
    call interrupted from the keyboard, and an enumeration of sets in the
    reverse of stdpp's order. *)
Definition loads_a_list (s : string) : outcome json := Return (JArray []).

Definition interrupted_request (prompt api_key : string) : outcome string :=
  Raise KeyboardInterrupt.

Definition reversed_elements (X : gset string) : list string :=
  reverse (elements X).

(** [v] is a dict. *)
Definition is_object (v : json) : bool :=
  match v with
  | JObject _ => true
  | _ => false
  end.

(** The name under which one part of a message is listed as an attachment,
    if it is: what lines 45-70 compute for the part, apart from the list
    they append to.  It raises where the iteration does. *)
Definition attachment_name (search_filename search_name : string → option string)
    (matches_convention : string → bool) (part : Message)
    : outcome (option string) :=
  let content_type := content_type (part_headers part) in
  let content_disposition := content_disposition (part_headers part) in
  if decide (content_type ≠ "text/html") then
    if truthy content_disposition
       || String.prefix "application/" content_type
       || String.prefix "image/" content_type
       || String.prefix "video/" content_type
       || String.prefix "audio/" content_type
    then
      let filename : option string := None in
      filename ←
        (if truthy content_disposition then
           filename_match ← re_search search_filename content_disposition;
           Return (match filename_match with
                   | Some group1 => Some (strip_quotes group1)
                   | None => filename
                   end)
         else Return filename);
      filename ←
        (if decide (filename = None ∨ filename = Some EmptyString) then
           filename_match ←
             re_search search_name (content_type_header (part_headers part));
           Return (match filename_match with
                   | Some group1 => Some (strip_quotes group1)
                   | None => filename
                   end)
         else Return filename);
      Return (match filename with
              | Some name =>
                  if bool_decide (name ≠ EmptyString) && matches_convention name
                  then Some name else None
              | None => None
              end)
    else Return None
  else Return None.

(** The first and the last character of a string are quote characters. *)
Definition head_is_quote (s : string) : bool :=
  match s with
  | String c _ => is_quote c
  | EmptyString => false
  end.

Fixpoint last_is_quote (s : string) : bool :=
  match s with
  | EmptyString => false
  | String c EmptyString => is_quote c
  | String _ s' => last_is_quote s'
  end.

(** A message with an attached PDF, an inline logo without a usable name,
    and an HTML file sent as an attachment; stand-ins for the header
    searches that read the name after the last [=] sign, and for the naming
    convention. *)
Fixpoint after_equals (s : string) : option string :=
  match s with
  | EmptyString => None
  | String c s' =>
      match after_equals s' with
      | Some name => Some name
      | None => if bool_decide (c = "="%char) then Some s' else None
      end
  end.

Definition starts_with_example (name : string) : bool :=
  String.prefix "example_" name.

Definition message_with_attachments : Message :=
  Multipart
    {| content_type := "multipart/mixed";
       content_disposition := Str EmptyString;
       content_type_header := Str "multipart/mixed" |}
    [ Leaf html_headers (String.list_byte_of_string "<p>see attached</p>");
      Leaf {| content_type := "application/pdf";
              content_disposition :=
                Str "attachment; filename='example_7_attachment_01.pdf'";
              content_type_header := Str "application/pdf" |} [];
      Leaf {| content_type := "image/png";
              content_disposition := Str "inline";
              content_type_header := Str "image/png" |} [];
      Leaf {| content_type := "text/html";
              content_disposition :=
                Str "attachment; filename=example_7_attachment_02.html";
              content_type_header := Str "text/html" |} [] ].

(** A message of one part whose Content-Disposition holds raw bytes that
    are not ASCII, and the test that a part has no such header. *)
Definition message_with_raw_header : Message :=
  Leaf {| content_type := "application/pdf";
          content_disposition := HeaderObject;
          content_type_header := Str "application/pdf" |} [].

Definition is_str (v : header_value) : bool :=
  match v with
  | Str _ => true
  | HeaderObject => false
  end.

Definition str_headers (part : Message) : bool :=
  is_str (content_disposition (part_headers part))
  && is_str (content_type_header (part_headers part)).

(** The record [evaluate_classification] returns, as a function of the two
    dicts: the four counts as sizes of intersections, the ratios of those
    counts, and the two sorted differences. *)
Definition evaluation_of (list_of_set : gset string → list string)
    (predicted ground_truth : pydict) : evaluation :=
  let pred_relevant := ids (get predicted "relevant") in
  let pred_irrelevant := ids (get predicted "irrelevant") in
  let gt_relevant := ids (get ground_truth "relevant") in
  let gt_irrelevant := ids (get ground_truth "irrelevant") in
  let tp := size (pred_relevant ∩ gt_relevant) in
  let tn := size (pred_irrelevant ∩ gt_irrelevant) in
  let fp := size (pred_relevant ∩ gt_irrelevant) in
  let fn := size (pred_irrelevant ∩ gt_relevant) in
  {| true_positives := tp;
     true_negatives := tn;
     false_positives := fp;
     false_negatives := fn;
     accuracy := ratio_accuracy (metric_ratios tp tn fp fn);
     precision := ratio_precision (metric_ratios tp tn fp fn);
     recall := ratio_recall (metric_ratios tp tn fp fn);
     f1_score := ratio_f1 (metric_ratios tp tn fp fn);
     missing_attachments :=
       sorted (list_of_set ((gt_relevant ∪ gt_irrelevant)
                            ∖ (pred_relevant ∪ pred_irrelevant)));
     extra_attachments :=
       sorted (list_of_set ((pred_relevant ∪ pred_irrelevant)
                            ∖ (gt_relevant ∪ gt_irrelevant))) |}.

(** Two dicts for the same classification: lists in another order, a
    repeated id, and a key that is not read. *)
Definition tidy_prediction : pydict :=
  classification ["a.pdf"; "b.pdf"] ["c.png"].

Definition untidy_prediction : pydict :=
  <["model" := ["some-model"]]>
    (classification ["b.pdf"; "a.pdf"; "b.pdf"] ["c.png"; "c.png"]).

Definition ground_truth_abc : pydict :=
  classification ["a.pdf"] ["b.pdf"; "c.png"].

(** The two evaluated messages of [first_message] and [second_message] as
    records. *)
Definition first_evaluated : evaluation :=
  evaluation_of elements
    (classification ["a.pdf"] ["b.png"; "c.pdf"])
    (classification ["a.pdf"; "c.pdf"] ["b.png"]).

Definition second_evaluated : evaluation :=
  evaluation_of elements
    (classification ["x.pdf"; "y.pdf"; "z.png"] [])
    (classification ["x.pdf"; "y.pdf"] ["z.png"]).

(** ** [clean_html_for_analysis] and the truncation of the body *)

(** In this part a text is handled as the list of its characters
    ([str_chars]); [join] puts the characters together again. *)
Definition join (chars : list string) : string :=
  foldr String.append EmptyString chars.

Section normalizer.
(** [html.unescape], kept with its [try]: where it raises, the text stays
    as it is. *)
Variable unescape : string → string.
(** The character class [\s] of the two substitutions, which is also the
    class [str.strip()] removes: whether one character is whitespace. *)
Variable is_space : string → bool.

(** The characters left after a leading run of whitespace. *)
Fixpoint skip_spaces (chars : list string) : list string :=
  match chars with
  | [] => []
  | c :: rest => if is_space c then skip_spaces rest else chars
  end.

(** [re.sub(r'\s+', ' ', html)]: every maximal run of whitespace becomes
    one space.  A whitespace character followed by another one is dropped,
    the last one of a run is replaced. *)
Fixpoint collapse_spaces (chars : list string) : list string :=
  match chars with
  | [] => []
  | c :: rest =>
      if is_space c then
        match rest with
        | c' :: _ =>
            if is_space c' then collapse_spaces rest
            else " " :: collapse_spaces rest
        | [] => [" "]
        end
      else c :: collapse_spaces rest
  end.

(** [re.sub(r'>\s+<', '><', html)]: a [>], a run of whitespace that is not
    empty and a [<] lose the run; the search goes on after the [<].  What
    follows a [>] is read in its substituted form, which begins like the
    original up to the [<], neither whitespace nor [<] being a [>]. *)
Fixpoint close_gaps (chars : list string) : list string :=
  match chars with
  | [] => []
  | c :: rest =>
      let substituted := close_gaps rest in
      if decide (c = ">") then
        match substituted with
        | c' :: _ =>
            if is_space c' then
              match skip_spaces substituted with
              | c'' :: _ =>
                  if decide (c'' = "<") then c :: skip_spaces substituted
                  else c :: substituted
              | [] => c :: substituted
              end
            else c :: substituted
        | [] => [c]
        end
      else c :: substituted
  end.

(** [html.strip()]. *)
Fixpoint rstrip_spaces (chars : list string) : list string :=
  match chars with
  | [] => []
  | c :: rest =>
      match rstrip_spaces rest with
      | [] => if is_space c then [] else [c]
      | kept => c :: kept
      end
  end.

Definition strip_spaces (chars : list string) : list string :=
  rstrip_spaces (skip_spaces chars).

(** Lines 87-90: the two substitutions and the strip. *)
Definition normalize_spaces (chars : list string) : list string :=
  strip_spaces (close_gaps (collapse_spaces chars)).

Definition clean_html_for_analysis (html : string) : string :=
  if decide (html = EmptyString) then EmptyString
  else join (normalize_spaces (str_chars (unescape html))).
End normalizer.

(** Lines 292-295 of [classify_attachments], on the characters of the
    cleaned body. *)
Definition max_html_length : N := 200000.

Definition truncation_marker : list string := str_chars "... [truncated]".

Definition truncate_html (cleaned_html : list string) : list string :=
  if decide (max_html_length < N.of_nat (length cleaned_html))%N
  then take (N.to_nat max_html_length) cleaned_html ++ truncation_marker
  else cleaned_html.

(** What the statements about cleaned text say: every whitespace character
    is a space and is followed by none; no whitespace at either end; no
    whitespace between a [>] and a [<]. *)
Fixpoint single_spaced (is_space : string → bool) (chars : list string) : bool :=
  match chars with
  | [] => true
  | c :: rest =>
      (if is_space c then
         bool_decide (c = " ")
         && match rest with
            | c' :: _ => negb (is_space c')
            | [] => true
            end
       else true)
      && single_spaced is_space rest
  end.

Definition starts_with_space (is_space : string → bool) (chars : list string) : bool :=
  match chars with
  | c :: _ => is_space c
  | [] => false
  end.

Fixpoint ends_with_space (is_space : string → bool) (chars : list string) : bool :=
  match chars with
  | [] => false
  | [c] => is_space c
  | _ :: rest => ends_with_space is_space rest
  end.

Definition gap_before_tag (is_space : string → bool) (chars : list string) : bool :=
  match chars with
  | c :: _ =>
      is_space c
      && match skip_spaces is_space chars with
         | c' :: _ => bool_decide (c' = "<")
         | [] => false
         end
  | [] => false
  end.

Fixpoint has_gap (is_space : string → bool) (chars : list string) : bool :=
  match chars with
  | [] => false
  | c :: rest =>
      (bool_decide (c = ">") && gap_before_tag is_space rest)
      || has_gap is_space rest
  end.

(** A stand-in for the whitespace class: the six ASCII whitespace
    characters. *)
Definition ascii_space (c : string) : bool :=
  match c with
  | String a EmptyString => Ascii.is_space a
  | _ => false
  end.

(** ** One message of [main] in [classify_attachments.py] *)

Section one_message.
Variable list_of_set : gset string → list string.
Variable decode_utf8_ignore : list Byte.byte → string.
Variable search_filename : string → option string.
Variable search_name : string → option string.
Variable matches_convention : string → bool.
Variable json_loads : string → outcome json.
Variable build_prompt : string → list string → string.
Variable call_llm_api : string → string → outcome string.

(** Lines 356-369 of [main]: the dict computed for one parsed message.
    What is raised here is raised inside the [try] of [main], whose handler
    (lines 387-390) then leaves the message without a result. *)
Definition message_result (msg : Message) (api_key : string) : outcome pydict :=
  '(html_body, attachments) ←
    extract_html_body_and_attachments list_of_set decode_utf8_ignore
      search_filename search_name matches_convention msg;
  match attachments with
  | [] => Return (classification [] [])
  | _ =>
      classify_attachments list_of_set json_loads build_prompt call_llm_api
        html_body attachments api_key
  end.
End one_message.

(** The shape of the items [str_chars] yields: a character is a byte that
    is no continuation byte with continuation bytes after it; only the
    first item of a text may begin with a continuation byte. *)
Fixpoint all_continuation (s : string) : bool :=
  match s with
  | EmptyString => true
  | String a s' => is_continuation_byte a && all_continuation s'
  end.

Definition is_char (c : string) : bool :=
  match c with
  | String a continuation =>
      negb (is_continuation_byte a) && all_continuation continuation
  | EmptyString => false
  end.

Definition is_first_item (c : string) : bool :=
  match c with
  | String _ continuation => all_continuation continuation
  | EmptyString => false
  end.

Definition text_items (chars : list string) : Prop :=
  match chars with
  | [] => True
  | c :: rest => is_first_item c = true ∧ Forall (λ c', is_char c' = true) rest
  end.

(** Stand-ins for the cleaning: a text without entities, which
    [html.unescape] returns as it is, and a body with runs of whitespace. *)
Definition unescape_nothing (html : string) : string := html.

Definition spaced_body : string :=
  "  <p>  see   the attached </p>   <b>order</b> >  5 <  ".

(** * Properties *)

(** Running the binds of the [outcome] monad. *)
Ltac run_outcome := cbn [mbind outcome_bind].

(** ** Sorting and enumerations *)

Lemma sorted_perm (l : list string) : sorted l ≡ₚ l.
Proof. apply merge_sort_Permutation. Qed.

Lemma sorted_Sorted (l : list string) : Sorted String.le (sorted l).
Proof. apply (Sorted_merge_sort String.le). Qed.

Lemma elem_of_sorted (l : list string) (x : string) : x ∈ sorted l ↔ x ∈ l.
Proof. by rewrite sorted_perm. Qed.

Lemma ids_sorted (l : list string) : ids (sorted l) = ids l.
Proof. unfold ids. apply set_eq. intros x. by rewrite !elem_of_list_to_set, elem_of_sorted. Qed.

Lemma NoDup_sorted (l : list string) : NoDup (sorted l) ↔ NoDup l.
Proof. by rewrite sorted_perm. Qed.

(** A sorted list is determined by its elements: two sorted permutations of
    one another are equal, the order on strings being total and
    antisymmetric. *)
Lemma sorted_respects_perm (l k : list string) : l ≡ₚ k → sorted l = sorted k.
Proof.
  intros Hlk. apply (Sorted_unique String.le); auto using sorted_Sorted.
  by rewrite !sorted_perm.
Qed.

Lemma sorted_fixes_Sorted (l : list string) : Sorted String.le l → sorted l = l.
Proof.
  intros Hl. apply (Sorted_unique String.le); auto using sorted_Sorted, sorted_perm.
Qed.

Lemma sorted_idemp (l : list string) : sorted (sorted l) = sorted l.
Proof. apply sorted_fixes_Sorted, sorted_Sorted. Qed.

Lemma size_ids_le (l : list string) : size (ids l) ≤ length l.
Proof.
  unfold ids. induction l as [|x l IH]; cbn [length].
  - by rewrite list_to_set_nil, size_empty.
  - rewrite list_to_set_cons, size_union_alt, size_singleton.
    assert (size (list_to_set l ∖ {[x]} : gset string) ≤ size (list_to_set l : gset string))
      by (apply subseteq_size; set_solver).
    lia.
Qed.

(** The test [len(l) != len(set(l))] of lines 235 and 240 fails exactly on
    the lists without repetition. *)
Lemma length_size_NoDup (l : list string) : length l = size (ids l) ↔ NoDup l.
Proof.
  split.
  - unfold ids. induction l as [|x l IH]; cbn [length]; intros Hlen; [constructor|].
    rewrite list_to_set_cons in Hlen.
    destruct (decide (x ∈ l)) as [Hin|Hin].
    + assert ({[x]} ∪ list_to_set l = (list_to_set l : gset string)) as Heq by set_solver.
      rewrite Heq in Hlen. pose proof (size_ids_le l). unfold ids in *. lia.
    + rewrite size_union in Hlen by set_solver. rewrite size_singleton in Hlen.
      constructor; [done|]. apply IH. lia.
  - intros Hl. unfold ids. by rewrite size_list_to_set.
Qed.

Lemma enumerates_perm (l k : list string) (X : gset string) :
  enumerates l X → enumerates k X → l ≡ₚ k.
Proof.
  intros [Hl HlX] [Hk HkX]. apply NoDup_Permutation; [done..|].
  intros x. by rewrite HlX, HkX.
Qed.

Lemma enumerates_elements (X : gset string) : enumerates (elements X) X.
Proof. split; [apply NoDup_elements|]. intros x. apply elem_of_elements. Qed.

Lemma enumerates_sorted (l : list string) (X : gset string) :
  enumerates l X → sorted l = sorted (elements X).
Proof.
  intros Hl. apply sorted_respects_perm.
  eapply enumerates_perm; [done|apply enumerates_elements].
Qed.

Lemma enumerates_filter (l : list string) (X A : gset string) :
  enumerates l X → enumerates (filter (λ a, a ∈ A) l) (X ∩ A).
Proof.
  intros [Hl HlX]. split; [by apply NoDup_filter|].
  intros x. rewrite list_elem_of_filter, HlX. set_solver.
Qed.

Lemma enumerates_app (l k : list string) (X Y : gset string) :
  enumerates l X → enumerates k Y → X ## Y → enumerates (l ++ k) (X ∪ Y).
Proof.
  intros [Hl HlX] [Hk HkY] Hdisj. split.
  - apply NoDup_app. split_and!; [done| |done].
    intros x Hx Hx'. apply HlX in Hx. apply HkY in Hx'. set_solver.
  - intros x. rewrite elem_of_app, HlX, HkY. set_solver.
Qed.

Lemma enumerates_ext (l : list string) (X Y : gset string) :
  enumerates l X → X = Y → enumerates l Y.
Proof. by intros ? <-. Qed.

(** ** The validation stage *)

Lemma get_relevant (r i : list string) : get (classification r i) "relevant" = r.
Proof. reflexivity. Qed.

Lemma get_irrelevant (r i : list string) : get (classification r i) "irrelevant" = i.
Proof. reflexivity. Qed.

Section validation_facts.
Variable list_of_set : gset string → list string.
(** Whatever its order, [list(s)] holds the members of [s], each once. *)
Hypothesis list_of_set_perm : ∀ X, list_of_set X ≡ₚ elements X.

Lemma enumerates_list_of_set (X : gset string) : enumerates (list_of_set X) X.
Proof.
  split.
  - rewrite list_of_set_perm. apply NoDup_elements.
  - intros x. rewrite list_of_set_perm. apply elem_of_elements.
Qed.

(** Lines 235-243: after the duplicate check a list names its ids once
    each. *)
Lemma enumerates_dedup (l : list string) :
  enumerates
    (if decide (length l ≠ size (list_to_set l : gset string))
     then list_of_set (list_to_set l) else l)
    (ids l).
Proof.
  case_decide as Hlen.
  - apply enumerates_list_of_set.
  - apply length_size_NoDup in Hlen.
    split; [done|]. intros x. unfold ids. by rewrite elem_of_list_to_set.
Qed.

(** The stage computes a function of two sets only: the ids named as
    relevant and the known filenames.  What the answer lists as
    irrelevant never changes the outcome. *)
Lemma repair_sets (relevant irrelevant attachment_filenames : list string) :
  repair list_of_set relevant irrelevant attachment_filenames =
  classification
    (sorted (elements (ids relevant ∩ ids attachment_filenames)))
    (sorted (elements (ids attachment_filenames ∖ ids relevant))).
Proof.
  unfold repair.
  pose proof (enumerates_dedup relevant) as Hrel.
  pose proof (enumerates_dedup irrelevant) as Hirr.
  set (rel1 := if decide (length relevant ≠ _) then _ else relevant) in *.
  set (irr1 := if decide (length irrelevant ≠ _) then _ else irrelevant) in *.
  fold (ids relevant) (ids irrelevant) (ids attachment_filenames).
  set (Rl := ids relevant) in *. set (Ir := ids irrelevant) in *.
  set (Al := ids attachment_filenames) in *.
  clearbody rel1 irr1 Rl Ir Al.
  assert (enumerates (if decide (Rl ∩ Ir ≠ ∅)
                      then list_of_set (Ir ∖ (Rl ∩ Ir)) else irr1) (Ir ∖ Rl)) as Hirr2.
  { case_decide as Hov.
    - eapply enumerates_ext; [apply enumerates_list_of_set|set_solver].
    - eapply enumerates_ext; [exact Hirr|set_solver]. }
  set (irr2 := if decide (Rl ∩ Ir ≠ ∅) then _ else irr1) in *.
  clearbody irr2.
  pose proof (enumerates_filter _ _ Al Hrel) as Hrel3.
  pose proof (enumerates_filter _ _ Al Hirr2) as Hirr3.
  set (rel3 := filter _ rel1) in *. set (irr3 := filter _ irr2) in *.
  clearbody rel3 irr3.
  assert (Al ∖ list_to_set (rel3 ++ irr3) = Al ∖ (Rl ∪ Ir)) as ->.
  { apply set_eq. intros x.
    rewrite !elem_of_difference, elem_of_list_to_set, elem_of_app.
    rewrite (proj2 Hrel3 x), (proj2 Hirr3 x). set_unfold. tauto. }
  assert (enumerates (if decide (Al ∖ (Rl ∪ Ir) ≠ ∅)
                      then irr3 ++ list_of_set (Al ∖ (Rl ∪ Ir)) else irr3)
                     (Al ∖ Rl)) as Hirr4.
  { case_decide as Hmiss.
    - eapply enumerates_ext.
      + apply enumerates_app; [exact Hirr3|apply enumerates_list_of_set|].
        set_solver.
      + apply set_eq. intros x.
        destruct (decide (x ∈ Rl)), (decide (x ∈ Ir)); set_solver.
    - eapply enumerates_ext; [exact Hirr3|].
      apply set_eq. intros x.
      destruct (decide (x ∈ Rl)), (decide (x ∈ Ir)); set_solver. }
  by rewrite (enumerates_sorted _ _ Hrel3), (enumerates_sorted _ _ Hirr4).
Qed.

(** X4.  Both returned lists are in sorted order and name no id twice. *)
Lemma repair_lists_canonical (relevant irrelevant attachment_filenames : list string)
    (key : string) :
  Sorted String.le (get (repair list_of_set relevant irrelevant attachment_filenames) key)
  ∧ NoDup (get (repair list_of_set relevant irrelevant attachment_filenames) key).
Proof.
  rewrite repair_sets. unfold get, classification.
  destruct (decide (key = "relevant")) as [->|Hrel].
  { rewrite lookup_insert_eq. cbn [default].
    split; [apply sorted_Sorted|]. apply NoDup_sorted, NoDup_elements. }
  rewrite lookup_insert_ne by done.
  destruct (decide (key = "irrelevant")) as [->|Hirr].
  { rewrite lookup_insert_eq. cbn [default].
    split; [apply sorted_Sorted|]. apply NoDup_sorted, NoDup_elements. }
  rewrite lookup_insert_ne, lookup_empty by done. cbn [default].
  split; constructor.
Qed.
End validation_facts.

(** X22.  Hence the order in which Python happens to enumerate its sets
    does not show in the result. *)
Lemma repair_any_enumeration (enum enum' : gset string → list string)
    (relevant irrelevant attachment_filenames : list string) :
  (∀ X, enum X ≡ₚ elements X) → (∀ X, enum' X ≡ₚ elements X) →
  repair enum relevant irrelevant attachment_filenames
  = repair enum' relevant irrelevant attachment_filenames.
Proof. intros Henum Henum'. by rewrite !repair_sets. Qed.

Lemma ids_sorted_elements (X : gset string) : ids (sorted (elements X)) = X.
Proof.
  rewrite ids_sorted. unfold ids. apply set_eq. intros x.
  by rewrite elem_of_list_to_set, elem_of_elements.
Qed.

Lemma elem_of_sorted_elements (X : gset string) (x : string) :
  x ∈ sorted (elements X) ↔ x ∈ X.
Proof. by rewrite elem_of_sorted, elem_of_elements. Qed.

Lemma elem_of_ids (l : list string) (x : string) : x ∈ ids l ↔ x ∈ l.
Proof. unfold ids. apply elem_of_list_to_set. Qed.

Section partition_repair.
Variable list_of_set : gset string → list string.
Hypothesis list_of_set_perm : ∀ X, list_of_set X ≡ₚ elements X.

Local Abbreviation repair := (repair list_of_set).

(** C1.  Whatever the two raw lists hold (repetitions, ids on both sides,
    ids that are no attachment, attachments named nowhere), the two lists
    returned by the validation stage name disjoint sets of ids whose union
    is the set of the known filenames.  Nothing is assumed of the filename
    list either. *)
Theorem repair_is_partition (relevant irrelevant attachment_filenames : list string) :
  ids (get (repair relevant irrelevant attachment_filenames) "relevant")
    ∩ ids (get (repair relevant irrelevant attachment_filenames) "irrelevant") = ∅
  ∧ ids (get (repair relevant irrelevant attachment_filenames) "relevant")
    ∪ ids (get (repair relevant irrelevant attachment_filenames) "irrelevant")
    = ids attachment_filenames.
Proof.
  rewrite repair_sets by done. rewrite get_relevant, get_irrelevant.
  rewrite !ids_sorted_elements. split.
  - set_solver.
  - apply set_eq. intros x.
    destruct (decide (x ∈ ids relevant)); set_solver.
Qed.

(** C2.  Running the validation stage on its own result, with the same
    filenames, returns that result unchanged. *)
Theorem repair_idempotent (relevant irrelevant attachment_filenames : list string) :
  repair (get (repair relevant irrelevant attachment_filenames) "relevant")
         (get (repair relevant irrelevant attachment_filenames) "irrelevant")
         attachment_filenames
  = repair relevant irrelevant attachment_filenames.
Proof.
  rewrite (repair_sets _ list_of_set_perm (get _ _)).
  rewrite (repair_sets _ list_of_set_perm relevant).
  rewrite get_relevant, ids_sorted_elements.
  set (Rl := ids relevant). set (Al := ids attachment_filenames).
  replace (Rl ∩ Al ∩ Al) with (Rl ∩ Al) by set_solver.
  replace (Al ∖ (Rl ∩ Al)) with (Al ∖ Rl) by set_solver.
  done.
Qed.

(** C4.  A known filename that the answer lists on both sides ends on the
    relevant side only. *)
Theorem repair_tie_break (relevant irrelevant attachment_filenames : list string)
    (x : string) :
  x ∈ attachment_filenames → x ∈ relevant → x ∈ irrelevant →
  x ∈ get (repair relevant irrelevant attachment_filenames) "relevant"
  ∧ x ∉ get (repair relevant irrelevant attachment_filenames) "irrelevant".
Proof.
  intros HA HR _. rewrite repair_sets by done.
  rewrite get_relevant, get_irrelevant, !elem_of_sorted_elements.
  apply elem_of_ids in HA, HR. set_solver.
Qed.

(** C5.  A known filename that neither raw list names ends on the
    irrelevant side (and not on the relevant one); on the filenames A, B, C
    with A alone named relevant and nothing named irrelevant the result is
    relevant [A], irrelevant [B; C]. *)
Theorem repair_default_irrelevant
    (relevant irrelevant attachment_filenames : list string) (x : string) :
  x ∈ attachment_filenames → x ∉ relevant → x ∉ irrelevant →
  (x ∈ get (repair relevant irrelevant attachment_filenames) "irrelevant"
   ∧ x ∉ get (repair relevant irrelevant attachment_filenames) "relevant")
  ∧ repair ["A"] [] ["A"; "B"; "C"] = classification ["A"] ["B"; "C"].
Proof.
  intros HA HR _. rewrite !repair_sets by done. split.
  - rewrite get_relevant, get_irrelevant, !elem_of_sorted_elements.
    apply elem_of_ids in HA. rewrite <-elem_of_ids in HR. set_solver.
  - by vm_compute.
Qed.

(** C10.  On a filename list without repetition, the value returned by
    the handlers of [classify_attachments] is the value the validation
    stage returns for an answer with both lists empty. *)
Theorem fallback_is_repair_of_empty (attachment_filenames : list string) :
  NoDup attachment_filenames →
  fallback attachment_filenames = repair [] [] attachment_filenames.
Proof.
  intros Hnodup. rewrite repair_sets by done. unfold fallback, ids.
  rewrite list_to_set_nil.
  replace (∅ ∩ list_to_set attachment_filenames) with (∅ : gset string) by set_solver.
  replace (list_to_set attachment_filenames ∖ ∅)
    with (list_to_set attachment_filenames : gset string) by set_solver.
  rewrite elements_empty.
  rewrite (sorted_respects_perm (elements _) attachment_filenames)
    by by apply elements_list_to_set.
  done.
Qed.
End partition_repair.

(** The enumeration of stdpp's finite sets is one admissible [list(s)]. *)
Lemma elements_enumeration (X : gset string) : elements X ≡ₚ elements X.
Proof. reflexivity. Qed.

(** C1 on an answer with a repetition, an id on both sides, an id that is
    no attachment and an attachment named nowhere. *)
Lemma repair_is_partition_witness :
  ids (get (repair elements ["a.pdf"; "a.pdf"; "x.pdf"] ["a.pdf"; "b.png"]
                   ["a.pdf"; "b.png"; "c.png"]) "relevant")
    ∩ ids (get (repair elements ["a.pdf"; "a.pdf"; "x.pdf"] ["a.pdf"; "b.png"]
                       ["a.pdf"; "b.png"; "c.png"]) "irrelevant") = ∅
  ∧ ids (get (repair elements ["a.pdf"; "a.pdf"; "x.pdf"] ["a.pdf"; "b.png"]
                     ["a.pdf"; "b.png"; "c.png"]) "relevant")
    ∪ ids (get (repair elements ["a.pdf"; "a.pdf"; "x.pdf"] ["a.pdf"; "b.png"]
                       ["a.pdf"; "b.png"; "c.png"]) "irrelevant")
    = ids ["a.pdf"; "b.png"; "c.png"].
Proof.
  exact (repair_is_partition elements elements_enumeration
           ["a.pdf"; "a.pdf"; "x.pdf"] ["a.pdf"; "b.png"]
           ["a.pdf"; "b.png"; "c.png"]).
Defined.

(** C2 on the same answer. *)
Lemma repair_idempotent_witness :
  repair elements
    (get (repair elements ["a.pdf"; "a.pdf"; "x.pdf"] ["a.pdf"; "b.png"]
                 ["a.pdf"; "b.png"; "c.png"]) "relevant")
    (get (repair elements ["a.pdf"; "a.pdf"; "x.pdf"] ["a.pdf"; "b.png"]
                 ["a.pdf"; "b.png"; "c.png"]) "irrelevant")
    ["a.pdf"; "b.png"; "c.png"]
  = repair elements ["a.pdf"; "a.pdf"; "x.pdf"] ["a.pdf"; "b.png"]
           ["a.pdf"; "b.png"; "c.png"].
Proof.
  exact (repair_idempotent elements elements_enumeration
           ["a.pdf"; "a.pdf"; "x.pdf"] ["a.pdf"; "b.png"]
           ["a.pdf"; "b.png"; "c.png"]).
Defined.

(** C4 on an answer that names a.pdf on both sides. *)
Lemma repair_tie_break_witness :
  "a.pdf" ∈ get (repair elements ["a.pdf"] ["a.pdf"; "b.png"]
                        ["a.pdf"; "b.png"]) "relevant"
  ∧ "a.pdf" ∉ get (repair elements ["a.pdf"] ["a.pdf"; "b.png"]
                          ["a.pdf"; "b.png"]) "irrelevant".
Proof.
  apply (repair_tie_break elements elements_enumeration
           ["a.pdf"] ["a.pdf"; "b.png"] ["a.pdf"; "b.png"] "a.pdf");
    apply list_elem_of_here.
Defined.

(** C5 at B in the example of the statement. *)
Lemma repair_default_irrelevant_witness :
  ("B" ∈ get (repair elements ["A"] [] ["A"; "B"; "C"]) "irrelevant"
   ∧ "B" ∉ get (repair elements ["A"] [] ["A"; "B"; "C"]) "relevant")
  ∧ repair elements ["A"] [] ["A"; "B"; "C"] = classification ["A"] ["B"; "C"].
Proof.
  apply (repair_default_irrelevant elements elements_enumeration
           ["A"] [] ["A"; "B"; "C"] "B").
  - apply list_elem_of_further, list_elem_of_here.
  - intros Hin. apply list_elem_of_In in Hin. simpl in Hin.
    destruct Hin as [Heq|[]]. discriminate Heq.
  - apply not_elem_of_nil.
Defined.

(** C10 on two filenames given out of order. *)
Lemma fallback_is_repair_of_empty_witness :
  fallback ["b.png"; "a.pdf"] = repair elements [] [] ["b.png"; "a.pdf"].
Proof.
  apply (fallback_is_repair_of_empty elements elements_enumeration).
  apply (bool_decide_unpack _). by vm_compute.
Defined.

(** ** Locating the JSON answer *)

Lemma append_cons (c : ascii) (s t : string) : String c s +:+ t = String c (s +:+ t).
Proof. reflexivity. Qed.

Lemma append_nil (t : string) : EmptyString +:+ t = t.
Proof. reflexivity. Qed.

Lemma append_assoc (s t u : string) : (s +:+ t) +:+ u = s +:+ t +:+ u.
Proof. induction s as [|c s IH]; [done|]. by rewrite !append_cons, IH. Qed.

Lemma greedy_to_close_none (s : string) :
  has_char "}" s = false → greedy_to_close s = None.
Proof.
  induction s as [|c s IH]; simpl; [done|].
  intros [Hc Hs]%orb_false_elim. rewrite IH by done.
  case_decide as Heq; [|done]. by rewrite bool_decide_eq_false in Hc.
Qed.

(** From any position, the greedy match runs to the last closing brace. *)
Lemma greedy_to_close_last (mid post : string) :
  has_char "}" post = false →
  greedy_to_close (mid +:+ "}" +:+ post) = Some (mid +:+ "}").
Proof.
  intros Hpost. induction mid as [|c mid IH].
  - rewrite append_nil. change ("}" +:+ post) with (String "}" post). simpl.
    rewrite greedy_to_close_none by done. reflexivity.
  - change (greedy_to_close (String c (mid +:+ "}" +:+ post))
            = Some (String c (mid +:+ "}"))).
    simpl. by rewrite IH.
Qed.

(** The search starts at the first opening brace. *)
Lemma search_braces_first (pre rest m : string) :
  has_char "{" pre = false →
  greedy_to_close rest = Some m →
  search_braces (pre +:+ "{" +:+ rest) = Some ("{" +:+ m).
Proof.
  intros Hpre Hrest. induction pre as [|c pre IH].
  - rewrite append_nil. change ("{" +:+ rest) with (String "{" rest). simpl.
    rewrite Hrest. reflexivity.
  - rewrite append_cons. simpl in *.
    apply orb_false_elim in Hpre as [Hc Hpre].
    rewrite bool_decide_eq_false in Hc. case_decide as Heq; [done|]. by apply IH.
Qed.

Lemma json_candidate_span (pre mid post : string) :
  has_char "{" pre = false → has_char "}" post = false →
  json_candidate (pre +:+ "{" +:+ mid +:+ "}" +:+ post) = "{" +:+ mid +:+ "}".
Proof.
  intros Hpre Hpost. unfold json_candidate.
  by rewrite (search_braces_first pre _ (mid +:+ "}"))
    by auto using greedy_to_close_last.
Qed.

Lemma greedy_to_close_some (s m : string) :
  greedy_to_close s = Some m →
  ∃ mid post, s = mid +:+ "}" +:+ post ∧ m = mid +:+ "}" ∧ has_char "}" post = false.
Proof.
  revert m. induction s as [|c s IH]; intros m; simpl; [done|].
  destruct (greedy_to_close s) as [m'|] eqn:Hs.
  - intros [= <-]. destruct (IH m' eq_refl) as (mid & post & -> & -> & Hpost).
    by exists (String c mid), post.
  - case_decide as Hc; [|done]. intros [= <-]. subst c.
    exists EmptyString, s. split_and!; [done..|].
    clear IH. induction s as [|c s IH]; simpl in *; [done|].
    destruct (greedy_to_close s); [done|]. case_decide as Hc; [done|].
    rewrite bool_decide_eq_false_2 by done. by apply IH.
Qed.

(** Every match of the search is of that shape: it starts at the first
    opening brace of the text and ends at its last closing brace. *)
Lemma search_braces_some (s m : string) :
  search_braces s = Some m →
  ∃ pre mid post,
    s = pre +:+ "{" +:+ mid +:+ "}" +:+ post
    ∧ m = "{" +:+ mid +:+ "}"
    ∧ has_char "{" pre = false ∧ has_char "}" post = false.
Proof.
  induction s as [|c s IH]; simpl; [done|].
  case_decide as Hc.
  - subst c. destruct (greedy_to_close s) as [m'|] eqn:Hs.
    + intros [= <-]. apply greedy_to_close_some in Hs as (mid & post & -> & -> & Hpost).
      by exists EmptyString, mid, post.
    + intros (pre & mid & post & -> & -> & Hpre & Hpost)%IH.
      replace (pre +:+ "{" +:+ mid +:+ "}" +:+ post)
        with ((pre +:+ "{" +:+ mid) +:+ "}" +:+ post) in Hs
        by (by rewrite !append_assoc).
      by rewrite greedy_to_close_last in Hs.
  - intros (pre & mid & post & -> & -> & Hpre & Hpost)%IH.
    exists (String c pre), mid, post. split_and!; [done..| |done].
    simpl. by rewrite bool_decide_eq_false_2.
Qed.


(** C6, as stated, fails.  On an answer whose remark after the object holds
    a closing brace, the first brace-delimited object is the object, while
    the text handed to the decoder runs on to the last closing brace of the
    remark. *)
Lemma json_candidate_overshoots_first_object :
  first_json_object answer_with_remark = Some answer_object
  ∧ json_candidate answer_with_remark
    = answer_object +:+ " (an empty list is written [], not {}"
  ∧ json_candidate answer_with_remark ≠ answer_object.
Proof. split_and!; [by vm_compute..|]. intros Heq. by vm_compute in Heq. Qed.

Section orchestrator_facts.
Variable list_of_set : gset string → list string.
Variable json_loads : string → outcome json.
Variable build_prompt : string → list string → string.
Variable call_llm_api : string → string → outcome string.

(** C6, amended.  The text handed to the decoder is the stretch from the
    first opening brace to the last closing brace of the answer: text
    before it that holds no opening brace and text after it that holds no
    closing brace are dropped.  When that stretch decodes to an object,
    the two raw lists are read under the keys "relevant" and "irrelevant",
    the empty list standing for an absent key, and go through the
    validation stage. *)
Theorem parse_llm_response_brace_span (pre mid post : string)
    (attachment_filenames : list string) (kvs : gmap string json) :
  has_char "{" pre = false →
  has_char "}" post = false →
  json_loads ("{" +:+ mid +:+ "}") = Return (JObject kvs) →
  json_candidate (pre +:+ "{" +:+ mid +:+ "}" +:+ post) = "{" +:+ mid +:+ "}"
  ∧ parse_llm_response list_of_set json_loads
      (pre +:+ "{" +:+ mid +:+ "}" +:+ post) attachment_filenames
    = (relevant ← candidates (default (JArray []) (kvs !! "relevant"));
       irrelevant ← candidates (default (JArray []) (kvs !! "irrelevant"));
       Return (repair list_of_set relevant irrelevant attachment_filenames)).
Proof.
  intros Hpre Hpost Hloads. split; [by apply json_candidate_span|].
  unfold parse_llm_response.
  rewrite json_candidate_span, Hloads by done. reflexivity.
Qed.

(** Without filenames nothing is asked of the model. *)
Lemma classify_attachments_nothing (html_body api_key : string) :
  classify_attachments list_of_set json_loads build_prompt call_llm_api
      html_body [] api_key
    = Return (classification [] []).
Proof. reflexivity. Qed.

(** The three handlers together catch every [Exception] raised inside the
    [try], by the call or by the parsing, and return the same value. *)
Lemma classify_attachments_catches (html_body : string)
    (attachment_filenames : list string) (api_key : string) (e : exn) :
  attachment_filenames ≠ [] →
  is_Exception e = true →
  (response_text ← call_llm_api (build_prompt html_body attachment_filenames) api_key;
   parse_llm_response list_of_set json_loads response_text attachment_filenames)
    = Raise e →
  classify_attachments list_of_set json_loads build_prompt call_llm_api
      html_body attachment_filenames api_key
    = Return (fallback attachment_filenames).
Proof.
  intros Hne He Htried. unfold classify_attachments.
  destruct attachment_filenames as [|a l]; [done|].
  rewrite Htried. by destruct e.
Qed.

(** X7.  What [classify_attachments] lets through is no [Exception]: an
    exception that reaches the caller is of a class that [except Exception]
    does not catch. *)
Lemma classify_attachments_raises_no_Exception (html_body : string)
    (attachment_filenames : list string) (api_key : string) (e : exn) :
  classify_attachments list_of_set json_loads build_prompt call_llm_api
      html_body attachment_filenames api_key = Raise e →
  is_Exception e = false.
Proof.
  unfold classify_attachments. destruct attachment_filenames as [|a l]; [done|].
  destruct (_ ≫= _) as [result|e']; [done|].
  destruct e'; simpl; intros [= <-]; done.
Qed.

(** C3.  With at least one filename, a request that fails and an answer
    that does not decode as JSON both end in a returned value, not in a
    raised exception: nothing relevant, every filename irrelevant, in
    sorted order. *)
Theorem classify_attachments_falls_back (html_body : string)
    (attachment_filenames : list string) (api_key : string) :
  attachment_filenames ≠ [] →
  call_llm_api (build_prompt html_body attachment_filenames) api_key
    = Raise RequestException
  ∨ (∃ response_text,
       call_llm_api (build_prompt html_body attachment_filenames) api_key
         = Return response_text
       ∧ json_loads (json_candidate response_text) = Raise JSONDecodeError) →
  classify_attachments list_of_set json_loads build_prompt call_llm_api
      html_body attachment_filenames api_key
    = Return (classification [] (sorted attachment_filenames)).
Proof.
  intros Hne [Hcall|(response_text & Hcall & Hloads)].
  - apply (classify_attachments_catches _ _ _ RequestException); [done..|].
    by rewrite Hcall.
  - apply (classify_attachments_catches _ _ _ JSONDecodeError); [done..|].
    rewrite Hcall. run_outcome. unfold parse_llm_response. by rewrite Hloads.
Qed.
End orchestrator_facts.

(** C6, amended, on an empty object between two sentences. *)
Lemma parse_llm_response_brace_span_witness :
  json_candidate ("Here is the classification: " +:+ "{" +:+ "" +:+ "}" +:+ " Done.")
    = "{" +:+ "" +:+ "}"
  ∧ parse_llm_response elements loads_empty_object
      ("Here is the classification: " +:+ "{" +:+ "" +:+ "}" +:+ " Done.")
      ["b.png"; "a.pdf"]
    = (relevant ← candidates (default (JArray []) ((∅ : gmap string json) !! "relevant"));
       irrelevant ← candidates (default (JArray []) ((∅ : gmap string json) !! "irrelevant"));
       Return (repair elements relevant irrelevant ["b.png"; "a.pdf"])).
Proof.
  apply (parse_llm_response_brace_span elements loads_empty_object
           "Here is the classification: " "" " Done." ["b.png"; "a.pdf"] ∅);
    reflexivity.
Defined.

(** C3 on a request that fails and on an answer that is no JSON. *)
Lemma classify_attachments_falls_back_witness :
  classify_attachments elements loads_nothing plain_prompt failing_request
    "<p>see the attached order</p>" ["b.png"; "a.pdf"] "key"
    = Return (classification [] (sorted ["b.png"; "a.pdf"]))
  ∧ classify_attachments elements loads_nothing plain_prompt
      (answering "I cannot tell.")
      "<p>see the attached order</p>" ["b.png"; "a.pdf"] "key"
    = Return (classification [] (sorted ["b.png"; "a.pdf"])).
Proof.
  split.
  - apply (classify_attachments_falls_back elements loads_nothing plain_prompt
             failing_request); [discriminate|]. left. reflexivity.
  - apply (classify_attachments_falls_back elements loads_nothing plain_prompt
             (answering "I cannot tell.")); [discriminate|].
    right. exists "I cannot tell.". split; reflexivity.
Defined.

(** ** Extraction of the body *)

(** A sequence of computations returns when each one does, and raises
    what one of them raises. *)
Lemma mapM_outcome_Return {A B : Type} (f : A → outcome B) (l : list A)
    (ks : list B) :
  mapM f l = Return ks ↔ Forall2 (λ x k, f x = Return k) l ks.
Proof.
  revert ks. induction l as [|x l IH]; intros ks; cbn [mapM].
  - split; [intros [= <-]; constructor|by inversion 1].
  - destruct (f x) as [k|e] eqn:Hx; cbn [mbind outcome_bind].
    + destruct (mapM f l) as [ks'|e] eqn:Hl; (unfold mret, outcome_ret; cbn [mbind outcome_bind]).
      * split.
        -- intros [= <-]. constructor; [done|by apply IH].
        -- inversion 1 as [|? k' ? ks'' Hk Hks]; subst.
           apply IH in Hks. congruence.
      * split; [done|]. inversion 1 as [|? k' ? ks'' Hk Hks]; subst.
        by apply IH in Hks.
    + split; [done|]. inversion 1; congruence.
Qed.

Lemma mapM_outcome_Raise {A B : Type} (f : A → outcome B) (l : list A) (e : exn) :
  mapM f l = Raise e → ∃ x, x ∈ l ∧ f x = Raise e.
Proof.
  induction l as [|x l IH]; cbn [mapM]; [done|].
  destruct (f x) as [k|e'] eqn:Hx; cbn [mbind outcome_bind].
  - destruct (mapM f l) as [ks|e'];
      (unfold mret, outcome_ret; cbn [mbind outcome_bind]); [done|].
    intros [= ->]. destruct IH as (y & Hy & Hraise); [done|].
    exists y. split; [by apply list_elem_of_further|done].
  - intros [= ->]. exists x. split; [apply list_elem_of_here|done].
Qed.

Lemma mapM_outcome_returns {A B : Type} (f : A → outcome B) (l : list A) :
  (∀ x, x ∈ l → ∃ k, f x = Return k) → ∃ ks, mapM f l = Return ks.
Proof.
  intros Hl. destruct (mapM f l) as [ks|e] eqn:Hm; [by exists ks|].
  apply mapM_outcome_Raise in Hm as (x & Hx & Hraise).
  destruct (Hl x Hx) as [k Hk]. congruence.
Qed.

Section extraction_facts.
Variable list_of_set : gset string → list string.
Variable decode_utf8_ignore : list Byte.byte → string.
Variable search_filename : string → option string.
Variable search_name : string → option string.
Variable matches_convention : string → bool.

Local Abbreviation visit_part :=
  (visit decode_utf8_ignore search_filename search_name matches_convention).
Local Abbreviation visit_parts :=
  (visit_all decode_utf8_ignore search_filename search_name matches_convention).
Local Abbreviation name_of_part :=
  (attachment_name search_filename search_name matches_convention).

Local Ltac tidy_name := run_outcome; cbn [option_list]; rewrite ?app_nil_r.

(** One iteration raises where the name of the part does; otherwise it
    keeps a body that is already there, takes the text of the part when
    there is none and the part [captures], and appends the name of the part
    if it has one. *)
Lemma visit_value (html_body : string) (attachments : list string) (part : Message) :
  visit_part (html_body, attachments) part
  = name ← name_of_part part;
    Return (if decide (html_body = EmptyString) then
              if captures decode_utf8_ignore part
              then part_text decode_utf8_ignore part else EmptyString
            else html_body,
            attachments ++ option_list name).
Proof.
  assert ((if decide (content_type (part_headers part) = "text/html"
                      ∧ html_body = EmptyString) then
             match get_payload part with
             | Some ((_ :: _) as payload) => decode_utf8_ignore payload
             | _ => html_body
             end
           else html_body)
          = if decide (html_body = EmptyString) then
              if captures decode_utf8_ignore part
              then part_text decode_utf8_ignore part else EmptyString
            else html_body) as Hbody.
  { unfold captures, is_html, part_text.
    destruct (decide (html_body = EmptyString)) as [->|Hbody].
    - destruct (decide (content_type (part_headers part) = "text/html")) as [Hct|Hct].
      + rewrite decide_True by done. rewrite (bool_decide_eq_true_2 _ Hct).
        destruct (get_payload part) as [[|b payload]|]; cbn [andb]; [done| |done].
        by case_bool_decide as Hdec.
      + rewrite decide_False by tauto. by rewrite bool_decide_eq_false_2 by done.
    - by rewrite decide_False by tauto. }
  unfold visit, attachment_name. rewrite Hbody. clear Hbody.
  destruct (decide (content_type _ ≠ _)); [|by tidy_name].
  destruct (_ || _ || _ || _ || _); [|by tidy_name].
  destruct (truthy _).
  - destruct (re_search search_filename _) as [[group1|]|e]; run_outcome; [| |done].
    + destruct (decide (_ ∨ _)).
      * destruct (re_search search_name _) as [[group1'|]|e]; run_outcome; [| |done].
        -- destruct (_ && _); by tidy_name.
        -- destruct (_ && _); by tidy_name.
      * run_outcome. destruct (_ && _); by tidy_name.
    + destruct (decide (_ ∨ _)) as [_|[]]; [|by left].
      destruct (re_search search_name _) as [[group1'|]|e]; run_outcome; [| |done].
      * destruct (_ && _); by tidy_name.
      * by tidy_name.
  - run_outcome. destruct (decide (_ ∨ _)) as [_|[]]; [|by left].
    destruct (re_search search_name _) as [[group1'|]|e]; run_outcome; [| |done].
    + destruct (_ && _); by tidy_name.
    + by tidy_name.
Qed.

(** The loop: it raises where the name of a part does, and otherwise
    returns the body of the first part that captures and the names of the
    parts in the order of the walk. *)
Lemma visit_all_value (parts : list Message) (html_body : string)
    (attachments : list string) :
  visit_parts (html_body, attachments) parts
  = names ← mapM name_of_part parts;
    Return (if decide (html_body = EmptyString) then
              match find (captures decode_utf8_ignore) parts with
              | Some part => part_text decode_utf8_ignore part
              | None => EmptyString
              end
            else html_body,
            attachments ++ omap id names).
Proof.
  revert html_body attachments.
  induction parts as [|part parts IH]; intros html_body attachments.
  - cbn. rewrite app_nil_r. by destruct (decide _) as [->|].
  - cbn [visit_all mapM find]. rewrite visit_value.
    destruct (name_of_part part) as [name|e]; run_outcome; [|done].
    rewrite IH. destruct (mapM name_of_part parts) as [names|e];
      (unfold mret, outcome_ret; cbn [mbind outcome_bind]); [|done].
    f_equal. f_equal.
    + destruct (decide (html_body = EmptyString)) as [->|Hne].
      * destruct (captures decode_utf8_ignore part) eqn:Hcap.
        -- rewrite decide_False; [done|].
           unfold captures in Hcap. apply andb_prop in Hcap as [_ Hcap].
           unfold part_text. destruct (get_payload part) as [[|b payload]|]; [done| |done].
           by apply bool_decide_eq_true in Hcap.
        -- by rewrite decide_True.
      * by rewrite decide_False.
    + rewrite <-app_assoc. f_equal. by destruct name.
Qed.

(** The whole extraction in one equation. *)
Lemma extract_value (msg : Message) :
  extract_html_body_and_attachments list_of_set decode_utf8_ignore
    search_filename search_name matches_convention msg
  = names ← mapM name_of_part (walk msg);
    Return (body_of_first (captures decode_utf8_ignore) decode_utf8_ignore msg,
            sorted (list_of_set (list_to_set (omap id names)))).
Proof.
  unfold extract_html_body_and_attachments, body_of_first.
  rewrite visit_all_value.
  destruct (mapM name_of_part (walk msg)) as [names|e]; run_outcome; [|done].
  by rewrite decide_True, app_nil_l.
Qed.

(** What a returned pair is made of. *)
Lemma extract_Return (msg : Message) (html_body : string)
    (attachments : list string) :
  extract_html_body_and_attachments list_of_set decode_utf8_ignore
    search_filename search_name matches_convention msg
    = Return (html_body, attachments) →
  html_body = body_of_first (captures decode_utf8_ignore) decode_utf8_ignore msg
  ∧ ∃ names,
      Forall2 (λ part name, name_of_part part = Return name) (walk msg) names
      ∧ attachments = sorted (list_of_set (list_to_set (omap id names))).
Proof.
  rewrite extract_value.
  destruct (mapM name_of_part (walk msg)) as [names|e] eqn:Hnames;
    run_outcome; [|done].
  intros [= <- <-]. split; [done|]. exists names.
  by apply mapM_outcome_Return in Hnames.
Qed.

(** The name of a part is computed without raising when its two header
    values are strings, and what it raises otherwise is the [TypeError] of
    a search, in a part that is not HTML. *)
Lemma attachment_name_returns (part : Message) :
  str_headers part = true → ∃ name, name_of_part part = Return name.
Proof.
  unfold str_headers, attachment_name.
  destruct (content_disposition _) as [disposition|]; [|done].
  destruct (content_type_header _) as [header|]; [|done]. intros _.
  cbn [re_search]. run_outcome.
  repeat (case_match; run_outcome); by eexists.
Qed.

Lemma attachment_name_raises (part : Message) (e : exn) :
  name_of_part part = Raise e →
  e = TypeError ∧ str_headers part = false
  ∧ content_type (part_headers part) ≠ "text/html".
Proof.
  intros Hraise. split_and!.
  - unfold attachment_name in Hraise.
    destruct (content_disposition _) as [disposition|],
      (content_type_header _) as [header|];
      cbn [re_search truthy] in Hraise; run_outcome;
      repeat (case_match; cbn [mbind outcome_bind] in * ); congruence.
  - destruct (str_headers part) eqn:Hstr; [|done].
    destruct (attachment_name_returns part Hstr). congruence.
  - unfold attachment_name in Hraise. by case_decide.
Qed.

(** C8, amended.  From a message whose Content-Disposition and
    Content-Type values are all strings the extraction returns, and the
    body it returns, there and wherever it returns, is the decoded payload
    of the first part of the walk that is HTML and whose payload is not
    empty and decodes to text that is not empty; later HTML parts are not
    looked at, and without such a part the body is the empty string.  What
    the extraction raises is the [TypeError] of a header search, on a part
    that is not HTML and has a header value that is no string. *)
Theorem extract_body_first_capturing_html (msg : Message) :
  (forallb str_headers (walk msg) = true →
   ∃ attachments,
     extract_html_body_and_attachments list_of_set decode_utf8_ignore
       search_filename search_name matches_convention msg
     = Return (body_of_first (captures decode_utf8_ignore) decode_utf8_ignore msg,
               attachments))
  ∧ (∀ html_body attachments,
       extract_html_body_and_attachments list_of_set decode_utf8_ignore
         search_filename search_name matches_convention msg
       = Return (html_body, attachments) →
       html_body
       = body_of_first (captures decode_utf8_ignore) decode_utf8_ignore msg)
  ∧ (∀ e,
       extract_html_body_and_attachments list_of_set decode_utf8_ignore
         search_filename search_name matches_convention msg
       = Raise e →
       e = TypeError
       ∧ ∃ part, part ∈ walk msg ∧ str_headers part = false
           ∧ content_type (part_headers part) ≠ "text/html").
Proof.
  split_and!.
  - intros Hstr. rewrite extract_value.
    destruct (mapM_outcome_returns name_of_part (walk msg)) as [names ->].
    + intros part Hpart. apply attachment_name_returns.
      rewrite forallb_forall in Hstr. by apply Hstr, list_elem_of_In.
    + by eexists.
  - intros html_body attachments Hreturn. by apply extract_Return in Hreturn as [-> _].
  - intros e. rewrite extract_value.
    destruct (mapM name_of_part (walk msg)) as [names|e'] eqn:Hnames;
      run_outcome; [done|].
    intros [= ->]. apply mapM_outcome_Raise in Hnames as (part & Hpart & Hraise).
    apply attachment_name_raises in Hraise as (-> & Hstr & Hct). eauto.
Qed.
End extraction_facts.

(** C8, as stated, fails.  The first HTML part of [two_html_parts] is
    empty; the body returned is the text of the second one, where the first
    HTML part taken alone gives the empty string. *)
Lemma extract_body_skips_empty_html :
  extract_html_body_and_attachments elements decode_wellformed
    no_match no_match no_convention two_html_parts
  = Return ("<p>second</p>", [])
  ∧ body_of_first is_html decode_wellformed two_html_parts = EmptyString.
Proof. split; by vm_compute. Qed.

(** C8, amended, on the message with a PDF, a nameless logo and an attached
    HTML file, whose header values are all strings. *)
Lemma extract_body_first_capturing_html_witness :
  forallb str_headers (walk message_with_attachments) = true
  ∧ ∃ attachments,
      extract_html_body_and_attachments elements decode_wellformed
        after_equals after_equals starts_with_example message_with_attachments
      = Return (body_of_first (captures decode_wellformed) decode_wellformed
                  message_with_attachments,
                attachments).
Proof.
  split; [reflexivity|].
  apply (extract_body_first_capturing_html elements decode_wellformed
           after_equals after_equals starts_with_example message_with_attachments).
  reflexivity.
Defined.

(** On the message with a raw header the extraction raises. *)
Lemma extract_raises_on_raw_header :
  extract_html_body_and_attachments elements decode_wellformed
    no_match no_match no_convention message_with_raw_header
  = Raise TypeError.
Proof. reflexivity. Qed.

(** ** Metrics *)

(** A float above zero does not compare equal to zero, so a division
    guarded by [> 0] has a divisor [/] accepts. *)
Lemma float_pos_nonzero (x : float) :
  (0 <? x)%float = true → (x =? 0)%float = false.
Proof.
  intros Hpos. rewrite FloatAxioms.ltb_spec in Hpos. rewrite FloatAxioms.eqb_spec.
  change (Prim2SF 0) with (S754_zero false) in *.
  destruct (Prim2SF x) as [s|s| |s m e]; try destruct s; done.
Qed.

Lemma float_zero_not_pos (x : float) :
  (x =? 0)%float = true → (0 <? x)%float = false.
Proof.
  intros Hx. destruct (0 <? x)%float eqn:Hpos; [|done].
  apply float_pos_nonzero in Hpos. congruence.
Qed.

Lemma guarded_int_truediv (a b : nat) :
  (if decide (0 < b) then int_truediv a b else Return 0%float)
  = Return (guarded_ratio a b).
Proof.
  unfold int_truediv, guarded_ratio.
  destruct (decide (0 < b)), (decide (b = 0)); done || lia.
Qed.

Lemma guarded_float_truediv (p r : float) :
  (if (0 <? p + r)%float
   then float_truediv (2 * (p * r)) (p + r) else Return 0%float)
  = Return (if (0 <? p + r)%float then (2 * (p * r) / (p + r))%float else 0%float).
Proof.
  unfold float_truediv. destruct (0 <? p + r)%float eqn:Hpos; [|done].
  by rewrite float_pos_nonzero.
Qed.

Lemma guarded_ratio_zero (a b : nat) : b = 0 → guarded_ratio a b = 0%float.
Proof. intros ->. reflexivity. Qed.

(** No division of [evaluate_classification] raises: it returns, with the
    four ratios of its four counts. *)
Lemma evaluate_classification_returns (list_of_set : gset string → list string)
    (predicted ground_truth : pydict) :
  ∃ m, evaluate_classification list_of_set predicted ground_truth = Return m
    ∧ accuracy m = ratio_accuracy (metric_ratios
        (true_positives m) (true_negatives m) (false_positives m) (false_negatives m))
    ∧ precision m = ratio_precision (metric_ratios
        (true_positives m) (true_negatives m) (false_positives m) (false_negatives m))
    ∧ recall m = ratio_recall (metric_ratios
        (true_positives m) (true_negatives m) (false_positives m) (false_negatives m))
    ∧ f1_score m = ratio_f1 (metric_ratios
        (true_positives m) (true_negatives m) (false_positives m) (false_negatives m)).
Proof.
  unfold evaluate_classification.
  rewrite !guarded_int_truediv. run_outcome.
  rewrite guarded_float_truediv. run_outcome.
  eexists. split; [reflexivity|]. by cbn.
Qed.

(** C7.  [evaluate_classification] returns on every pair of dicts, so no
    division raises; a metric is 0.0 whenever its denominator is zero, and
    on two classifications with both lists empty all four metrics are
    0.0. *)
Theorem evaluate_classification_zero_denominators
    (list_of_set : gset string → list string) (predicted ground_truth : pydict) :
  (∃ m, evaluate_classification list_of_set predicted ground_truth = Return m
     ∧ (true_positives m + true_negatives m + false_positives m + false_negatives m = 0
        → accuracy m = 0%float)
     ∧ (true_positives m + false_positives m = 0 → precision m = 0%float)
     ∧ (true_positives m + false_negatives m = 0 → recall m = 0%float)
     ∧ ((precision m + recall m =? 0)%float = true → f1_score m = 0%float))
  ∧ (∃ m, evaluate_classification list_of_set
            (classification [] []) (classification [] []) = Return m
       ∧ accuracy m = 0%float ∧ precision m = 0%float
       ∧ recall m = 0%float ∧ f1_score m = 0%float).
Proof.
  split.
  - destruct (evaluate_classification_returns list_of_set predicted ground_truth)
      as (m & Hm & Hacc & Hprec & Hrec & Hf1).
    exists m. split; [done|]. split_and!.
    + intros Hzero. rewrite Hacc. by apply guarded_ratio_zero.
    + intros Hzero. rewrite Hprec. by apply guarded_ratio_zero.
    + intros Hzero. rewrite Hrec. by apply guarded_ratio_zero.
    + intros Hzero. rewrite Hf1. rewrite Hprec, Hrec in Hzero.
      unfold metric_ratios. cbn [ratio_f1]. by rewrite float_zero_not_pos.
  - destruct (evaluate_classification_returns list_of_set
                (classification [] []) (classification [] []))
      as (m & Hm & Hacc & Hprec & Hrec & Hf1).
    exists m. split; [done|].
    unfold evaluate_classification in Hm.
    rewrite !guarded_int_truediv in Hm. cbn [mbind outcome_bind] in Hm.
    rewrite guarded_float_truediv in Hm. cbn [mbind outcome_bind] in Hm.
    injection Hm as <-. by vm_compute.
Qed.

(** The running sums of [main] are the components of the element-wise
    sum. *)
Lemma foldl_sum_of (key : evaluation → nat) (all_metrics : list evaluation) (acc : nat) :
  foldl (λ acc m, acc + key m) acc all_metrics
  = acc + foldr (λ m acc, key m + acc) 0 all_metrics.
Proof.
  revert acc. induction all_metrics as [|m ms IH]; intros acc; cbn [foldl foldr].
  - lia.
  - rewrite IH. lia.
Qed.

Lemma summed_counts_sums (all_metrics : list evaluation) :
  summed_counts all_metrics
  = (sum_of true_positives all_metrics, sum_of true_negatives all_metrics,
     sum_of false_positives all_metrics, sum_of false_negatives all_metrics).
Proof.
  unfold sum_of. rewrite !foldl_sum_of.
  induction all_metrics as [|m ms IH]; [done|].
  unfold summed_counts in *. cbn [foldr]. rewrite IH. reflexivity.
Qed.

(** C9.  When at least one message was evaluated, [main] returns the
    totals, which are the element-wise sums of the per-message counts, and
    the ratios applied once to those totals.  For the counts (1, 1, 0, 1)
    and (2, 0, 1, 0) the totals are (3, 1, 1, 1); the overall precision is
    3/4, not the mean 5/6 of the per-message precisions 1 and 2/3. *)
Theorem overall_metrics_of_summed_counts (m : evaluation) (ms : list evaluation) :
  overall_metrics (m :: ms) = Return (Some (overall_of (summed_counts (m :: ms))))
  ∧ ∃ m1 m2 o,
      first_message = Return m1 ∧ second_message = Return m2
      ∧ counts m1 = (1, 1, 0, 1) ∧ counts m2 = (2, 0, 1, 0)
      ∧ summed_counts [m1; m2] = (3, 1, 1, 1)
      ∧ overall_metrics [m1; m2] = Return (Some o)
      ∧ (total_tp o, total_tn o, total_fp o, total_fn o) = (3, 1, 1, 1)
      ∧ overall_precision o = 0.75%float
      ∧ ((precision m1 + precision m2) / 2 =? overall_precision o)%float = false.
Proof.
  split.
  - rewrite summed_counts_sums. unfold overall_metrics, overall_of.
    rewrite !guarded_int_truediv. run_outcome.
    rewrite guarded_float_truediv. run_outcome.
    reflexivity.
  - destruct (evaluate_classification_returns elements
                (classification ["a.pdf"] ["b.png"; "c.pdf"])
                (classification ["a.pdf"; "c.pdf"] ["b.png"])) as (m1 & Hm1 & _).
    destruct (evaluate_classification_returns elements
                (classification ["x.pdf"; "y.pdf"; "z.png"] [])
                (classification ["x.pdf"; "y.pdf"] ["z.png"])) as (m2 & Hm2 & _).
    exists m1, m2, (overall_of (summed_counts [m1; m2])).
    fold first_message in Hm1. fold second_message in Hm2.
    split; [done|]. split; [done|].
    vm_compute in Hm1, Hm2. injection Hm1 as <-. injection Hm2 as <-.
    split_and!; by vm_compute.
Qed.

(** * Further properties of the validation stage and of the orchestrator *)

Lemma reversed_elements_enumeration (X : gset string) :
  reversed_elements X ≡ₚ elements X.
Proof. unfold reversed_elements. apply reverse_Permutation. Qed.

Section validation_more.
Variable list_of_set : gset string → list string.
Hypothesis list_of_set_perm : ∀ X, list_of_set X ≡ₚ elements X.

(** X1.  The returned lists, member by member: an id is returned relevant
    exactly when it is a known filename that the answer names relevant, and
    irrelevant exactly when it is a known filename that the answer does not
    name relevant. *)
Theorem repair_membership (relevant irrelevant attachment_filenames : list string)
    (x : string) :
  (x ∈ get (repair list_of_set relevant irrelevant attachment_filenames) "relevant"
     ↔ x ∈ relevant ∧ x ∈ attachment_filenames)
  ∧ (x ∈ get (repair list_of_set relevant irrelevant attachment_filenames) "irrelevant"
     ↔ x ∈ attachment_filenames ∧ x ∉ relevant).
Proof.
  rewrite repair_sets by done. rewrite get_relevant, get_irrelevant.
  rewrite !elem_of_sorted_elements, elem_of_intersection, elem_of_difference.
  by rewrite !elem_of_ids.
Qed.

(** X2.  The list the answer gives as irrelevant has no effect on the
    result: two answers with the same relevant list are validated to the
    same dict. *)
Theorem repair_ignores_irrelevant_list
    (relevant irrelevant irrelevant' attachment_filenames : list string) :
  repair list_of_set relevant irrelevant attachment_filenames
  = repair list_of_set relevant irrelevant' attachment_filenames.
Proof. by rewrite !repair_sets. Qed.

(** X3.  An answer that already is a classification of the filenames (no
    repetition on either side, no id on both sides, every filename named and
    nothing else) is returned as it is, up to sorting each list. *)
Theorem repair_keeps_a_classification
    (relevant irrelevant attachment_filenames : list string) :
  NoDup relevant → NoDup irrelevant →
  ids relevant ∩ ids irrelevant = ∅ →
  ids relevant ∪ ids irrelevant = ids attachment_filenames →
  repair list_of_set relevant irrelevant attachment_filenames
  = classification (sorted relevant) (sorted irrelevant).
Proof.
  intros Hrel Hirr Hdisj Hcover. rewrite repair_sets by done.
  rewrite <-Hcover.
  replace (ids relevant ∩ (ids relevant ∪ ids irrelevant)) with (ids relevant)
    by set_solver.
  replace ((ids relevant ∪ ids irrelevant) ∖ ids relevant) with (ids irrelevant)
    by set_solver.
  unfold ids.
  rewrite (sorted_respects_perm (elements (list_to_set relevant)) relevant)
    by by apply elements_list_to_set.
  by rewrite (sorted_respects_perm (elements (list_to_set irrelevant)) irrelevant)
    by by apply elements_list_to_set.
Qed.

End validation_more.

(** What [parse_llm_response] returns is a result of the validation stage. *)
Lemma parse_llm_response_returns_repair (list_of_set : gset string → list string)
    (json_loads : string → outcome json) (response_text : string)
    (attachment_filenames : list string) (d : pydict) :
  parse_llm_response list_of_set json_loads response_text attachment_filenames
    = Return d →
  ∃ relevant irrelevant,
    d = repair list_of_set relevant irrelevant attachment_filenames.
Proof.
  unfold parse_llm_response.
  destruct (json_loads _) as [result|e]; [|done]. run_outcome.
  destruct (json_get result "relevant") as [relevant|e]; [|done]. run_outcome.
  destruct (json_get result "irrelevant") as [irrelevant|e]; [|done]. run_outcome.
  destruct (candidates relevant) as [r|e]; [|done]. run_outcome.
  destruct (candidates irrelevant) as [i|e]; [|done]. run_outcome.
  intros [= <-]. by exists r, i.
Qed.

Section orchestrator_more.
Variable list_of_set : gset string → list string.
Hypothesis list_of_set_perm : ∀ X, list_of_set X ≡ₚ elements X.
Variable json_loads : string → outcome json.
Variable build_prompt : string → list string → string.
Variable call_llm_api : string → string → outcome string.

(** A dict returned by [classify_attachments] splits the filenames. *)
Lemma classify_attachments_splits (html_body : string)
    (attachment_filenames : list string) (api_key : string) (d : pydict) :
  classify_attachments list_of_set json_loads build_prompt call_llm_api
      html_body attachment_filenames api_key = Return d →
  ids (get d "relevant") ∩ ids (get d "irrelevant") = ∅
  ∧ ids (get d "relevant") ∪ ids (get d "irrelevant") = ids attachment_filenames.
Proof.
  unfold classify_attachments.
  destruct attachment_filenames as [|a l]; [by intros [= <-]|].
  set (U := a :: l).
  assert (ids (get (fallback U) "relevant") ∩ ids (get (fallback U) "irrelevant") = ∅
          ∧ ids (get (fallback U) "relevant") ∪ ids (get (fallback U) "irrelevant")
            = ids U) as Hfallback.
  { unfold fallback. rewrite get_relevant, get_irrelevant, ids_sorted.
    unfold ids at 1 3. rewrite list_to_set_nil. set_solver. }
  destruct (call_llm_api _ _) as [response_text|e]; run_outcome.
  - destruct (parse_llm_response _ _ _ _) as [result|e] eqn:Hparse.
    + intros [= <-].
      apply parse_llm_response_returns_repair in Hparse as (r & i & ->).
      rewrite repair_sets by done. rewrite get_relevant, get_irrelevant.
      rewrite !ids_sorted_elements. split; [set_solver|].
      apply set_eq. intros x. destruct (decide (x ∈ ids r)); set_solver.
    + destruct e; simpl; by intros [= <-].
  - destruct e; simpl; by intros [= <-].
Qed.

(** X5.  Whatever the model answers and whatever fails, a dict that
    [classify_attachments] returns classifies exactly the filenames it was
    given: its two lists name disjoint sets whose union is the set of the
    filenames. *)
Theorem classify_attachments_returns_a_classification (html_body : string)
    (attachment_filenames : list string) (api_key : string) (d : pydict) :
  classify_attachments list_of_set json_loads build_prompt call_llm_api
      html_body attachment_filenames api_key = Return d →
  ids (get d "relevant") ∩ ids (get d "irrelevant") = ∅
  ∧ ids (get d "relevant") ∪ ids (get d "irrelevant") = ids attachment_filenames.
Proof. apply classify_attachments_splits. Qed.

(** X6.  An answer that decodes to JSON of another kind than an object (a
    list, a string, a number) is handled like one that does not decode:
    with at least one filename, the fallback is returned. *)
Theorem classify_attachments_rejects_other_json (html_body : string)
    (attachment_filenames : list string) (api_key response_text : string)
    (v : json) :
  attachment_filenames ≠ [] →
  call_llm_api (build_prompt html_body attachment_filenames) api_key
    = Return response_text →
  json_loads (json_candidate response_text) = Return v →
  is_object v = false →
  classify_attachments list_of_set json_loads build_prompt call_llm_api
      html_body attachment_filenames api_key
    = Return (classification [] (sorted attachment_filenames)).
Proof.
  intros Hne Hcall Hloads Hv. unfold classify_attachments.
  destruct attachment_filenames as [|a l]; [done|].
  rewrite Hcall. run_outcome. unfold parse_llm_response. rewrite Hloads. run_outcome.
  by destruct v.
Qed.
End orchestrator_more.

(** X1 at an id the answer names on both sides. *)
Lemma repair_membership_witness :
  ("a.pdf" ∈ get (repair elements ["a.pdf"; "x.pdf"] ["a.pdf"; "b.png"]
                         ["a.pdf"; "b.png"; "c.png"]) "relevant"
     ↔ "a.pdf" ∈ ["a.pdf"; "x.pdf"] ∧ "a.pdf" ∈ ["a.pdf"; "b.png"; "c.png"])
  ∧ ("a.pdf" ∈ get (repair elements ["a.pdf"; "x.pdf"] ["a.pdf"; "b.png"]
                           ["a.pdf"; "b.png"; "c.png"]) "irrelevant"
     ↔ "a.pdf" ∈ ["a.pdf"; "b.png"; "c.png"] ∧ "a.pdf" ∉ ["a.pdf"; "x.pdf"]).
Proof.
  exact (repair_membership elements elements_enumeration
           ["a.pdf"; "x.pdf"] ["a.pdf"; "b.png"] ["a.pdf"; "b.png"; "c.png"] "a.pdf").
Defined.

(** X2 on two answers that differ in their irrelevant list only. *)
Lemma repair_ignores_irrelevant_list_witness :
  repair elements ["a.pdf"] ["a.pdf"; "b.png"] ["a.pdf"; "b.png"; "c.png"]
  = repair elements ["a.pdf"] ["zzz"] ["a.pdf"; "b.png"; "c.png"].
Proof.
  exact (repair_ignores_irrelevant_list elements elements_enumeration
           ["a.pdf"] ["a.pdf"; "b.png"] ["zzz"] ["a.pdf"; "b.png"; "c.png"]).
Defined.

(** X3 on a well-formed answer given out of order. *)
Lemma repair_keeps_a_classification_witness :
  repair elements ["c.pdf"; "a.pdf"] ["b.png"] ["a.pdf"; "b.png"; "c.pdf"]
  = classification (sorted ["c.pdf"; "a.pdf"]) (sorted ["b.png"]).
Proof.
  apply (repair_keeps_a_classification elements elements_enumeration
           ["c.pdf"; "a.pdf"] ["b.png"] ["a.pdf"; "b.png"; "c.pdf"]).
  - apply (bool_decide_unpack _). by vm_compute.
  - apply (bool_decide_unpack _). by vm_compute.
  - apply (bool_decide_unpack _). by vm_compute.
  - apply (bool_decide_unpack _). by vm_compute.
Defined.

(** The lists returned for an answer with repetitions are sorted and
    without repetition. *)
Lemma repair_lists_canonical_witness :
  Sorted String.le (get (repair elements ["b.png"; "a.pdf"; "b.png"] []
                                ["a.pdf"; "b.png"; "c.png"]) "relevant")
  ∧ NoDup (get (repair elements ["b.png"; "a.pdf"; "b.png"] []
                       ["a.pdf"; "b.png"; "c.png"]) "relevant").
Proof.
  exact (repair_lists_canonical elements elements_enumeration
           ["b.png"; "a.pdf"; "b.png"] [] ["a.pdf"; "b.png"; "c.png"] "relevant").
Defined.

(** Two enumeration orders, one result. *)
Lemma repair_any_enumeration_witness :
  repair elements ["b.png"; "a.pdf"; "b.png"] ["c.png"; "c.png"; "d.png"]
         ["a.pdf"; "b.png"; "c.png"; "d.png"; "e.png"]
  = repair reversed_elements ["b.png"; "a.pdf"; "b.png"] ["c.png"; "c.png"; "d.png"]
           ["a.pdf"; "b.png"; "c.png"; "d.png"; "e.png"].
Proof.
  exact (repair_any_enumeration elements reversed_elements
           ["b.png"; "a.pdf"; "b.png"] ["c.png"; "c.png"; "d.png"]
           ["a.pdf"; "b.png"; "c.png"; "d.png"; "e.png"]
           elements_enumeration reversed_elements_enumeration).
Defined.

(** X5 on the answer made of an empty object. *)
Lemma classify_attachments_returns_a_classification_witness :
  ids (get (repair elements [] [] ["b.png"; "a.pdf"]) "relevant")
    ∩ ids (get (repair elements [] [] ["b.png"; "a.pdf"]) "irrelevant") = ∅
  ∧ ids (get (repair elements [] [] ["b.png"; "a.pdf"]) "relevant")
    ∪ ids (get (repair elements [] [] ["b.png"; "a.pdf"]) "irrelevant")
    = ids ["b.png"; "a.pdf"].
Proof.
  apply (classify_attachments_returns_a_classification elements elements_enumeration
           loads_empty_object plain_prompt (answering "Here it is: {}")
           "<p>see the attached order</p>" ["b.png"; "a.pdf"] "key").
  reflexivity.
Defined.

(** X6 on an answer that decodes to a list. *)
Lemma classify_attachments_rejects_other_json_witness :
  classify_attachments elements loads_a_list plain_prompt (answering "[]")
    "<p>see the attached order</p>" ["b.png"; "a.pdf"] "key"
  = Return (classification [] (sorted ["b.png"; "a.pdf"])).
Proof.
  apply (classify_attachments_rejects_other_json elements loads_a_list plain_prompt
           (answering "[]") "<p>see the attached order</p>" ["b.png"; "a.pdf"]
           "key" "[]" (JArray [])); [discriminate|reflexivity..].
Defined.

(** An interrupt during the request is the kind of thing let through. *)
Lemma classify_attachments_raises_no_Exception_witness :
  is_Exception KeyboardInterrupt = false.
Proof.
  apply (classify_attachments_raises_no_Exception elements loads_nothing plain_prompt
           interrupted_request "<p>see the attached order</p>" ["b.png"; "a.pdf"] "key").
  reflexivity.
Defined.

(** X23.  Extracting again from the extracted text changes nothing. *)
Theorem json_candidate_idempotent (response_text : string) :
  json_candidate (json_candidate response_text) = json_candidate response_text.
Proof.
  unfold json_candidate at 2 3.
  destruct (search_braces response_text) as [m|] eqn:Hsearch.
  - apply search_braces_some in Hsearch as (pre & mid & post & _ & -> & _ & _).
    exact (json_candidate_span EmptyString mid EmptyString eq_refl eq_refl).
  - unfold json_candidate. by rewrite Hsearch.
Qed.

(** * Further properties of the extraction *)

Lemma head_lstrip_quotes (s : string) : head_is_quote (lstrip_quotes s) = false.
Proof.
  induction s as [|c s IH]; [done|]. simpl.
  destruct (is_quote c) eqn:Hc; [done|]. simpl. by rewrite Hc.
Qed.

Lemma head_rstrip_quotes (s : string) :
  head_is_quote s = false → head_is_quote (rstrip_quotes s) = false.
Proof.
  destruct s as [|c s]; [done|]. simpl. intros Hc.
  destruct (rstrip_quotes s); simpl; by rewrite ?Hc.
Qed.

Lemma last_rstrip_quotes (s : string) : last_is_quote (rstrip_quotes s) = false.
Proof.
  induction s as [|c s IH]; [done|]. simpl.
  destruct (rstrip_quotes s) as [|c' r] eqn:Hr.
  - destruct (is_quote c) eqn:Hc; [done|]. simpl. by rewrite Hc.
  - done.
Qed.

Lemma strip_quotes_ends (s : string) :
  head_is_quote (strip_quotes s) = false ∧ last_is_quote (strip_quotes s) = false.
Proof.
  unfold strip_quotes. split.
  - apply head_rstrip_quotes, head_lstrip_quotes.
  - apply last_rstrip_quotes.
Qed.

Section extraction_more.
Variable list_of_set : gset string → list string.
Hypothesis list_of_set_perm : ∀ X, list_of_set X ≡ₚ elements X.
Variable decode_utf8_ignore : list Byte.byte → string.
Variable search_filename : string → option string.
Variable search_name : string → option string.
Variable matches_convention : string → bool.

Local Abbreviation name_of :=
  (attachment_name search_filename search_name matches_convention).
Local Abbreviation extract :=
  (extract_html_body_and_attachments list_of_set decode_utf8_ignore
     search_filename search_name matches_convention).

(** The names among the results computed for a list of parts. *)
Lemma elem_of_names (parts : list Message) (names : list (option string))
    (x : string) :
  Forall2 (λ part name, name_of part = Return name) parts names →
  x ∈ omap id names ↔ ∃ part, part ∈ parts ∧ name_of part = Return (Some x).
Proof.
  intros Hnames. rewrite list_elem_of_omap. split.
  - intros (name & Hname & Hid). cbn in Hid. subst name.
    apply list_elem_of_lookup in Hname as [i Hi].
    destruct (Forall2_lookup_r _ _ _ _ _ Hnames Hi) as (part & Hpart & Hp).
    exists part. split; [by eapply list_elem_of_lookup_2|done].
  - intros (part & Hpart & Hp). apply list_elem_of_lookup in Hpart as [i Hi].
    destruct (Forall2_lookup_l _ _ _ _ _ Hnames Hi) as (name & Hname & Hn).
    exists name. split; [by eapply list_elem_of_lookup_2|].
    cbn. congruence.
Qed.

(** Where the name of a part comes from: the part is not HTML, it has a
    Content-Disposition or a content type of one of the four families, and
    the name is group 1 of a search in one of its two header values,
    without the quotes at its ends; it is not empty and passes the naming
    convention. *)
Lemma attachment_name_Some (part : Message) (x : string) :
  name_of part = Return (Some x) →
  content_type (part_headers part) ≠ "text/html"
  ∧ truthy (content_disposition (part_headers part))
    || String.prefix "application/" (content_type (part_headers part))
    || String.prefix "image/" (content_type (part_headers part))
    || String.prefix "video/" (content_type (part_headers part))
    || String.prefix "audio/" (content_type (part_headers part)) = true
  ∧ x ≠ EmptyString ∧ matches_convention x = true
  ∧ ((∃ value group1,
        content_disposition (part_headers part) = Str value
        ∧ search_filename value = Some group1 ∧ x = strip_quotes group1)
     ∨ (∃ value group1,
          content_type_header (part_headers part) = Str value
          ∧ search_name value = Some group1 ∧ x = strip_quotes group1)).
Proof.
  unfold attachment_name.
  destruct (decide (content_type _ ≠ _)) as [Hct|]; [|done].
  destruct (_ || _ || _ || _ || _) eqn:Hcandidate; [|done].
  assert (∀ filename,
            Return (match filename with
                    | Some name =>
                        if bool_decide (name ≠ EmptyString) && matches_convention name
                        then Some name else None
                    | None => None
                    end) = Return (Some x) →
            filename = Some x ∧ x ≠ EmptyString ∧ matches_convention x = true)
    as Hlast.
  { intros [name|]; [|done]. destruct (bool_decide _) eqn:Hne; [|done].
    destruct (matches_convention name) eqn:Hconvention; [|done].
    cbn [andb]. intros [= <-]. by apply bool_decide_eq_true in Hne. }
  assert (∀ filename : option string,
            (filename_match ←
               re_search search_name (content_type_header (part_headers part));
             Return (match filename_match with
                     | Some group1 => Some (strip_quotes group1)
                     | None => filename
                     end)) = Return (Some x) →
            filename = Some x
            ∨ ∃ value group1,
                content_type_header (part_headers part) = Str value
                ∧ search_name value = Some group1 ∧ x = strip_quotes group1)
    as Hsecond.
  { intros filename.
    destruct (content_type_header _) as [value|]; cbn [re_search]; [|done].
    run_outcome. destruct (search_name value) as [group1|] eqn:Hsearch.
    - intros [= <-]. right. eauto.
    - intros [= ->]. by left. }
  intros Hname. split; [done|]. split; [done|]. revert Hname. clear Hcandidate.
  destruct (content_disposition _) as [value|] eqn:Hdisposition;
    cbn [truthy re_search]; [|done].
  destruct (bool_decide (value ≠ EmptyString)); run_outcome.
  - destruct (search_filename value) as [group1|] eqn:Hsearch.
    + destruct (decide (_ ∨ _)); run_outcome.
      * destruct (re_search search_name _ ≫= _) as [filename|] eqn:Hfilename;
          run_outcome; [|done].
        intros (-> & Hne & Hconvention)%Hlast.
        apply Hsecond in Hfilename as [[= Hx]|Horigin]; split_and!; eauto 10.
      * intros Hname.
        apply (Hlast (Some (strip_quotes group1))) in Hname
          as ([= Hx] & Hne & Hconvention).
        split_and!; eauto 10.
    + destruct (decide (_ ∨ _)) as [_|[]]; [|by left].
      destruct (re_search search_name _ ≫= _) as [filename|] eqn:Hfilename;
        run_outcome; [|done].
      intros (-> & Hne & Hconvention)%Hlast.
      apply Hsecond in Hfilename as [[=]|Horigin]; split_and!; eauto 10.
  - destruct (decide (_ ∨ _)) as [_|[]]; [|by left].
    destruct (re_search search_name _ ≫= _) as [filename|] eqn:Hfilename;
      run_outcome; [|done].
    intros (-> & Hne & Hconvention)%Hlast.
    apply Hsecond in Hfilename as [[=]|Horigin]; split_and!; eauto 10.
Qed.

(** X9.  When the extraction returns, its attachment list holds exactly
    the names of the parts of the walk that have one: no part is missed,
    whatever comes before it, and nothing else is listed. *)
Theorem extract_attachments_exactly (msg : Message) (html_body : string)
    (attachments : list string) (x : string) :
  extract msg = Return (html_body, attachments) →
  x ∈ attachments
  ↔ ∃ part, part ∈ walk msg ∧ name_of part = Return (Some x).
Proof.
  intros (_ & names & Hnames & ->)%extract_Return.
  rewrite elem_of_sorted, list_of_set_perm, elem_of_elements, elem_of_list_to_set.
  by apply elem_of_names.
Qed.

(** X10.  The returned attachment list is in sorted order and holds no
    name twice. *)
Theorem extract_attachments_canonical (msg : Message) (html_body : string)
    (attachments : list string) :
  extract msg = Return (html_body, attachments) →
  Sorted String.le attachments ∧ NoDup attachments.
Proof.
  intros (_ & names & _ & ->)%extract_Return.
  split; [apply sorted_Sorted|].
  rewrite NoDup_sorted, list_of_set_perm. apply NoDup_elements.
Qed.

(** X11.  Every returned name is not empty, passes the naming convention,
    and neither begins nor ends with a quote character. *)
Theorem extract_attachment_names_wellformed (msg : Message) (html_body : string)
    (attachments : list string) (x : string) :
  extract msg = Return (html_body, attachments) →
  x ∈ attachments →
  x ≠ EmptyString ∧ matches_convention x = true
  ∧ head_is_quote x = false ∧ last_is_quote x = false.
Proof.
  intros (_ & names & Hnames & ->)%extract_Return.
  rewrite elem_of_sorted, list_of_set_perm, elem_of_elements, elem_of_list_to_set.
  rewrite (elem_of_names _ _ _ Hnames). intros (part & _ & Hname).
  apply attachment_name_Some in Hname as (_ & _ & Hne & Hconvention & Horigin).
  split; [done|]. split; [done|].
  destruct Horigin as [(value & group1 & _ & _ & ->)|(value & group1 & _ & _ & ->)];
    apply strip_quotes_ends.
Qed.

(** X12.  A returned name is the name of a part that is not HTML and that
    has a Content-Disposition header or a content type of one of the four
    families, read from the Content-Disposition or the Content-Type value
    of that part: an HTML part is never listed, even when it is sent as an
    attachment, and neither is a part like text/plain without a
    disposition. *)
Theorem extract_attachments_never_from_html (msg : Message) (html_body : string)
    (attachments : list string) (x : string) :
  extract msg = Return (html_body, attachments) →
  x ∈ attachments →
  ∃ part, part ∈ walk msg
    ∧ name_of part = Return (Some x)
    ∧ content_type (part_headers part) ≠ "text/html"
    ∧ (truthy (content_disposition (part_headers part)) = true
       ∨ String.prefix "application/" (content_type (part_headers part)) = true
       ∨ String.prefix "image/" (content_type (part_headers part)) = true
       ∨ String.prefix "video/" (content_type (part_headers part)) = true
       ∨ String.prefix "audio/" (content_type (part_headers part)) = true)
    ∧ ((∃ value group1,
          content_disposition (part_headers part) = Str value
          ∧ search_filename value = Some group1 ∧ x = strip_quotes group1)
       ∨ (∃ value group1,
            content_type_header (part_headers part) = Str value
            ∧ search_name value = Some group1 ∧ x = strip_quotes group1)).
Proof.
  intros (_ & names & Hnames & ->)%extract_Return.
  rewrite elem_of_sorted, list_of_set_perm, elem_of_elements, elem_of_list_to_set.
  rewrite (elem_of_names _ _ _ Hnames). intros (part & Hpart & Hname).
  exists part. split; [done|]. split; [done|].
  apply attachment_name_Some in Hname as (Hct & Hcandidate & _ & _ & Horigin).
  split; [done|]. split; [|done].
  repeat apply orb_prop in Hcandidate as [Hcandidate|Hcandidate]; auto.
Qed.
End extraction_more.

(** X9 on a message with a PDF, a nameless logo and an attached HTML file. *)
Lemma extract_attachments_exactly_witness :
  extract_html_body_and_attachments elements decode_wellformed
      after_equals after_equals starts_with_example message_with_attachments
    = Return ("<p>see attached</p>", ["example_7_attachment_01.pdf"])
  ∧ ("example_7_attachment_01.pdf" ∈ ["example_7_attachment_01.pdf"]
     ↔ ∃ part, part ∈ walk message_with_attachments
         ∧ attachment_name after_equals after_equals starts_with_example part
           = Return (Some "example_7_attachment_01.pdf")).
Proof.
  split; [by vm_compute|].
  apply (extract_attachments_exactly elements elements_enumeration decode_wellformed
           after_equals after_equals starts_with_example message_with_attachments
           "<p>see attached</p>").
  by vm_compute.
Defined.

(** X10 on the same message. *)
Lemma extract_attachments_canonical_witness :
  Sorted String.le ["example_7_attachment_01.pdf"]
  ∧ NoDup ["example_7_attachment_01.pdf"].
Proof.
  apply (extract_attachments_canonical elements elements_enumeration decode_wellformed
           after_equals after_equals starts_with_example message_with_attachments
           "<p>see attached</p>").
  by vm_compute.
Defined.

(** X11 on the same message: the quotes around the name are gone. *)
Lemma extract_attachment_names_wellformed_witness :
  "example_7_attachment_01.pdf" ≠ EmptyString
  ∧ starts_with_example "example_7_attachment_01.pdf" = true
  ∧ head_is_quote "example_7_attachment_01.pdf" = false
  ∧ last_is_quote "example_7_attachment_01.pdf" = false.
Proof.
  apply (extract_attachment_names_wellformed elements elements_enumeration
           decode_wellformed after_equals after_equals starts_with_example
           message_with_attachments "<p>see attached</p>"
           ["example_7_attachment_01.pdf"]).
  - by vm_compute.
  - apply list_elem_of_here.
Defined.

(** X12 on the same message: the attached HTML file is not listed, the PDF
    is, and it comes from a part that is not HTML. *)
Lemma extract_attachments_never_from_html_witness :
  ∃ part, part ∈ walk message_with_attachments
    ∧ attachment_name after_equals after_equals starts_with_example part
      = Return (Some "example_7_attachment_01.pdf")
    ∧ content_type (part_headers part) ≠ "text/html"
    ∧ (truthy (content_disposition (part_headers part)) = true
       ∨ String.prefix "application/" (content_type (part_headers part)) = true
       ∨ String.prefix "image/" (content_type (part_headers part)) = true
       ∨ String.prefix "video/" (content_type (part_headers part)) = true
       ∨ String.prefix "audio/" (content_type (part_headers part)) = true)
    ∧ ((∃ value group1,
          content_disposition (part_headers part) = Str value
          ∧ after_equals value = Some group1
          ∧ "example_7_attachment_01.pdf" = strip_quotes group1)
       ∨ (∃ value group1,
            content_type_header (part_headers part) = Str value
            ∧ after_equals value = Some group1
            ∧ "example_7_attachment_01.pdf" = strip_quotes group1)).
Proof.
  apply (extract_attachments_never_from_html elements elements_enumeration
           decode_wellformed after_equals after_equals starts_with_example
           message_with_attachments "<p>see attached</p>"
           ["example_7_attachment_01.pdf"]).
  - by vm_compute.
  - apply list_elem_of_here.
Defined.

(** * Further properties of the evaluation *)

(** [evaluate_classification] in closed form: it returns on every input. *)
Lemma evaluate_classification_value (list_of_set : gset string → list string)
    (predicted ground_truth : pydict) :
  evaluate_classification list_of_set predicted ground_truth
  = Return (evaluation_of list_of_set predicted ground_truth).
Proof.
  unfold evaluate_classification.
  rewrite !guarded_int_truediv. run_outcome.
  rewrite guarded_float_truediv. run_outcome.
  reflexivity.
Qed.

(** Four intersections that split a universe split its size. *)
Lemma size_four_way (PR PI GR GI : gset string) :
  PR ∩ PI = ∅ → GR ∩ GI = ∅ → PR ∪ PI = GR ∪ GI →
  size (PR ∩ GR) + size (PI ∩ GI) + size (PR ∩ GI) + size (PI ∩ GR)
  = size (GR ∪ GI).
Proof.
  intros Hp Hg Hcover.
  assert (GR ∪ GI = (PR ∩ GR) ∪ (PI ∩ GI) ∪ (PR ∩ GI) ∪ (PI ∩ GR)) as ->.
  { apply set_eq. intros x. split.
    - intros Hx. assert (x ∈ PR ∪ PI) as Hx' by (by rewrite Hcover).
      set_solver.
    - set_solver. }
  rewrite (size_union (PR ∩ GR ∪ PI ∩ GI ∪ PR ∩ GI)) by set_solver.
  rewrite (size_union (PR ∩ GR ∪ PI ∩ GI)) by set_solver.
  rewrite (size_union (PR ∩ GR)) by set_solver. lia.
Qed.

Lemma list_of_set_empty (list_of_set : gset string → list string) :
  (∀ X, list_of_set X ≡ₚ elements X) → list_of_set ∅ = [].
Proof.
  intros Hperm. apply Permutation_nil_r. by rewrite Hperm, elements_empty.
Qed.

Lemma evaluation_of_classifications (list_of_set : gset string → list string)
    (predicted ground_truth : pydict) :
  (∀ X, list_of_set X ≡ₚ elements X) →
  ids (get predicted "relevant") ∩ ids (get predicted "irrelevant") = ∅ →
  ids (get ground_truth "relevant") ∩ ids (get ground_truth "irrelevant") = ∅ →
  ids (get predicted "relevant") ∪ ids (get predicted "irrelevant")
    = ids (get ground_truth "relevant") ∪ ids (get ground_truth "irrelevant") →
  true_positives (evaluation_of list_of_set predicted ground_truth)
    + true_negatives (evaluation_of list_of_set predicted ground_truth)
    + false_positives (evaluation_of list_of_set predicted ground_truth)
    + false_negatives (evaluation_of list_of_set predicted ground_truth)
    = size (ids (get ground_truth "relevant") ∪ ids (get ground_truth "irrelevant"))
  ∧ missing_attachments (evaluation_of list_of_set predicted ground_truth) = []
  ∧ extra_attachments (evaluation_of list_of_set predicted ground_truth) = [].
Proof.
  intros Hperm Hp Hg Hcover. unfold evaluation_of.
  cbn [true_positives true_negatives false_positives false_negatives
       missing_attachments extra_attachments].
  split; [by apply size_four_way|].
  rewrite Hcover.
  replace ((ids (get ground_truth "relevant") ∪ ids (get ground_truth "irrelevant"))
           ∖ (ids (get ground_truth "relevant") ∪ ids (get ground_truth "irrelevant")))
    with (∅ : gset string) by set_solver.
  by rewrite list_of_set_empty.
Qed.

(** X13.  When the prediction and the ground truth both classify the same
    set of ids (no id on both sides of either), every id is counted once:
    the four counts add up to the number of ids, and nothing is reported
    missing or extra. *)
Theorem evaluate_counts_every_id_once (list_of_set : gset string → list string)
    (predicted ground_truth : pydict) (m : evaluation) :
  (∀ X, list_of_set X ≡ₚ elements X) →
  ids (get predicted "relevant") ∩ ids (get predicted "irrelevant") = ∅ →
  ids (get ground_truth "relevant") ∩ ids (get ground_truth "irrelevant") = ∅ →
  ids (get predicted "relevant") ∪ ids (get predicted "irrelevant")
    = ids (get ground_truth "relevant") ∪ ids (get ground_truth "irrelevant") →
  evaluate_classification list_of_set predicted ground_truth = Return m →
  true_positives m + true_negatives m + false_positives m + false_negatives m
    = size (ids (get ground_truth "relevant") ∪ ids (get ground_truth "irrelevant"))
  ∧ missing_attachments m = [] ∧ extra_attachments m = [].
Proof.
  intros Hperm Hp Hg Hcover. rewrite evaluate_classification_value.
  intros [= <-]. by apply evaluation_of_classifications.
Qed.

(** Addition and multiplication of floats do not depend on the order of
    their operands. *)
Lemma float_add_comm (x y : float) : (x + y = y + x)%float.
Proof.
  apply Prim2SF_inj. rewrite !add_spec.
  destruct (Prim2SF x) as [sx|sx| |sx mx ex], (Prim2SF y) as [sy|sy| |sy my ey];
    try reflexivity; try (by destruct sx, sy).
  unfold SF64add, SFadd. by rewrite (Z.min_comm ex ey), Z.add_comm.
Qed.

Lemma float_mul_comm (x y : float) : (x * y = y * x)%float.
Proof.
  apply Prim2SF_inj. rewrite !mul_spec.
  destruct (Prim2SF x) as [sx|sx| |sx mx ex], (Prim2SF y) as [sy|sy| |sy my ey];
    try reflexivity; try (by destruct sx, sy).
  unfold SF64mul, SFmul. by rewrite (xorb_comm sx sy), (Pos.mul_comm mx my), (Z.add_comm ex ey).
Qed.

(** X14.  Exchanging the prediction and the ground truth exchanges the
    false positives with the false negatives, precision with recall and the
    missing ids with the extra ones; the true positives, the true negatives,
    the accuracy and the F1 score stay. *)
Theorem evaluate_exchanged (list_of_set : gset string → list string)
    (predicted ground_truth : pydict) :
  ∃ m m',
    evaluate_classification list_of_set predicted ground_truth = Return m
    ∧ evaluate_classification list_of_set ground_truth predicted = Return m'
    ∧ true_positives m' = true_positives m
    ∧ true_negatives m' = true_negatives m
    ∧ false_positives m' = false_negatives m
    ∧ false_negatives m' = false_positives m
    ∧ accuracy m' = accuracy m
    ∧ precision m' = recall m
    ∧ recall m' = precision m
    ∧ f1_score m' = f1_score m
    ∧ missing_attachments m' = extra_attachments m
    ∧ extra_attachments m' = missing_attachments m.
Proof.
  rewrite !evaluate_classification_value.
  eexists _, _. split; [reflexivity|]. split; [reflexivity|].
  unfold evaluation_of.
  cbn [true_positives true_negatives false_positives false_negatives
       accuracy precision recall f1_score missing_attachments extra_attachments].
  set (PR := ids (get predicted "relevant")).
  set (PI := ids (get predicted "irrelevant")).
  set (GR := ids (get ground_truth "relevant")).
  set (GI := ids (get ground_truth "irrelevant")).
  rewrite (comm_L (∩) GR PR), (comm_L (∩) GI PI), (comm_L (∩) GR PI),
    (comm_L (∩) GI PR).
  unfold metric_ratios. cbn [ratio_accuracy ratio_precision ratio_recall ratio_f1].
  split_and!; try reflexivity.
  - f_equal. lia.
  - by rewrite (float_add_comm (guarded_ratio _ (_ + size (PI ∩ GR)))),
      (float_mul_comm (guarded_ratio _ (_ + size (PI ∩ GR)))).
Qed.

(** X15.  A prediction that names the same ids as the ground truth on each
    side has no false positive and no false negative, provided the ground
    truth names no id on both sides. *)
Theorem evaluate_exact_prediction (list_of_set : gset string → list string)
    (predicted ground_truth : pydict) (m : evaluation) :
  ids (get predicted "relevant") = ids (get ground_truth "relevant") →
  ids (get predicted "irrelevant") = ids (get ground_truth "irrelevant") →
  ids (get ground_truth "relevant") ∩ ids (get ground_truth "irrelevant") = ∅ →
  evaluate_classification list_of_set predicted ground_truth = Return m →
  false_positives m = 0 ∧ false_negatives m = 0
  ∧ true_positives m = size (ids (get ground_truth "relevant"))
  ∧ true_negatives m = size (ids (get ground_truth "irrelevant")).
Proof.
  intros Hrel Hirr Hg. rewrite evaluate_classification_value. intros [= <-].
  unfold evaluation_of.
  cbn [true_positives true_negatives false_positives false_negatives].
  rewrite Hrel, Hirr, Hg, (comm_L (∩) (ids (get ground_truth "irrelevant"))), Hg.
  rewrite size_empty.
  by rewrite !(idemp_L (∩)).
Qed.

(** X16.  The evaluation reads the two lists of each dict as sets: the
    order of the ids, repeated ids and other keys of the dicts do not change
    the result. *)
Theorem evaluate_reads_sets (list_of_set : gset string → list string)
    (predicted predicted' ground_truth ground_truth' : pydict) :
  ids (get predicted "relevant") = ids (get predicted' "relevant") →
  ids (get predicted "irrelevant") = ids (get predicted' "irrelevant") →
  ids (get ground_truth "relevant") = ids (get ground_truth' "relevant") →
  ids (get ground_truth "irrelevant") = ids (get ground_truth' "irrelevant") →
  evaluate_classification list_of_set predicted ground_truth
  = evaluate_classification list_of_set predicted' ground_truth'.
Proof.
  intros Hpr Hpi Hgr Hgi. rewrite !evaluate_classification_value.
  unfold evaluation_of. by rewrite Hpr, Hpi, Hgr, Hgi.
Qed.

(** X13 on a prediction and a ground truth over a.pdf, b.pdf, c.png. *)
Lemma evaluate_counts_every_id_once_witness :
  true_positives (evaluation_of elements tidy_prediction ground_truth_abc)
    + true_negatives (evaluation_of elements tidy_prediction ground_truth_abc)
    + false_positives (evaluation_of elements tidy_prediction ground_truth_abc)
    + false_negatives (evaluation_of elements tidy_prediction ground_truth_abc)
    = size (ids (get ground_truth_abc "relevant")
            ∪ ids (get ground_truth_abc "irrelevant"))
  ∧ missing_attachments (evaluation_of elements tidy_prediction ground_truth_abc) = []
  ∧ extra_attachments (evaluation_of elements tidy_prediction ground_truth_abc) = [].
Proof.
  apply (evaluate_counts_every_id_once elements tidy_prediction ground_truth_abc
           (evaluation_of elements tidy_prediction ground_truth_abc)
           elements_enumeration).
  - apply (bool_decide_unpack _). by vm_compute.
  - apply (bool_decide_unpack _). by vm_compute.
  - apply (bool_decide_unpack _). by vm_compute.
  - apply evaluate_classification_value.
Defined.

(** X15 on the ground truth scored against itself. *)
Lemma evaluate_exact_prediction_witness :
  false_positives (evaluation_of elements ground_truth_abc ground_truth_abc) = 0
  ∧ false_negatives (evaluation_of elements ground_truth_abc ground_truth_abc) = 0
  ∧ true_positives (evaluation_of elements ground_truth_abc ground_truth_abc)
    = size (ids (get ground_truth_abc "relevant"))
  ∧ true_negatives (evaluation_of elements ground_truth_abc ground_truth_abc)
    = size (ids (get ground_truth_abc "irrelevant")).
Proof.
  apply (evaluate_exact_prediction elements ground_truth_abc ground_truth_abc
           (evaluation_of elements ground_truth_abc ground_truth_abc)).
  - reflexivity.
  - reflexivity.
  - apply (bool_decide_unpack _). by vm_compute.
  - apply evaluate_classification_value.
Defined.

(** X16 on two dicts for the same prediction. *)
Lemma evaluate_reads_sets_witness :
  evaluate_classification elements tidy_prediction ground_truth_abc
  = evaluate_classification elements untidy_prediction ground_truth_abc.
Proof.
  apply (evaluate_reads_sets elements tidy_prediction untidy_prediction
           ground_truth_abc ground_truth_abc).
  - apply (bool_decide_unpack _). by vm_compute.
  - apply (bool_decide_unpack _). by vm_compute.
  - reflexivity.
  - reflexivity.
Defined.

(** * Further properties of the aggregation *)

Lemma add_counts_comm (c d : nat * nat * nat * nat) : add_counts c d = add_counts d c.
Proof.
  destruct c as [[[? ?] ?] ?], d as [[[? ?] ?] ?]. unfold add_counts.
  f_equal; [f_equal; [f_equal|]|]; apply Nat.add_comm.
Qed.

Lemma add_counts_assoc (c d e : nat * nat * nat * nat) :
  add_counts c (add_counts d e) = add_counts (add_counts c d) e.
Proof.
  destruct c as [[[? ?] ?] ?], d as [[[? ?] ?] ?], e as [[[? ?] ?] ?].
  unfold add_counts. f_equal; [f_equal; [f_equal|]|]; apply Nat.add_assoc.
Qed.

Lemma add_counts_zero (c : nat * nat * nat * nat) : add_counts (0, 0, 0, 0) c = c.
Proof. by destruct c as [[[? ?] ?] ?]. Qed.

Lemma summed_counts_app (a b : list evaluation) :
  summed_counts (a ++ b) = add_counts (summed_counts a) (summed_counts b).
Proof.
  unfold summed_counts. induction a as [|m a IH]; cbn [app foldr].
  - by rewrite add_counts_zero.
  - by rewrite IH, add_counts_assoc.
Qed.

Lemma summed_counts_perm (a b : list evaluation) :
  a ≡ₚ b → summed_counts a = summed_counts b.
Proof.
  unfold summed_counts. induction 1 as [|m a b _ IH|m m' a|a b c _ IH1 _ IH2];
    cbn [foldr].
  - done.
  - by rewrite IH.
  - by rewrite !add_counts_assoc, (add_counts_comm (counts m')).
  - by rewrite IH1.
Qed.

(** [main] in closed form. *)
Lemma overall_metrics_value (all_metrics : list evaluation) :
  overall_metrics all_metrics
  = Return (match all_metrics with
            | [] => None
            | _ => Some (overall_of (summed_counts all_metrics))
            end).
Proof.
  destruct all_metrics as [|m ms]; [done|].
  rewrite summed_counts_sums. unfold overall_metrics, overall_of.
  rewrite !guarded_int_truediv. run_outcome.
  rewrite guarded_float_truediv. run_outcome.
  reflexivity.
Qed.

(** X17.  The aggregation never raises, and it computes overall metrics
    exactly when at least one message was evaluated. *)
Theorem overall_metrics_returns (all_metrics : list evaluation) :
  ∃ result, overall_metrics all_metrics = Return result
    ∧ (result = None ↔ all_metrics = []).
Proof.
  rewrite overall_metrics_value. eexists. split; [reflexivity|].
  by destruct all_metrics.
Qed.

(** X18.  The overall metrics do not depend on the order in which the
    messages were evaluated. *)
Theorem overall_metrics_any_order (all_metrics all_metrics' : list evaluation) :
  all_metrics ≡ₚ all_metrics' →
  overall_metrics all_metrics = overall_metrics all_metrics'.
Proof.
  intros Hperm. rewrite !overall_metrics_value.
  rewrite (summed_counts_perm _ _ Hperm).
  destruct all_metrics as [|m ms], all_metrics' as [|m' ms']; try done.
  - by apply Permutation_nil_cons in Hperm.
  - symmetry in Hperm. by apply Permutation_nil_cons in Hperm.
Qed.

(** X19.  Two batches of evaluated messages can be merged by adding their
    totals: the overall metrics of the concatenation are the ratios of the
    sums of the two batches' counts. *)
Theorem overall_metrics_of_two_batches (batch batch' : list evaluation) :
  batch ++ batch' ≠ [] →
  overall_metrics (batch ++ batch')
  = Return (Some (overall_of (add_counts (summed_counts batch)
                                         (summed_counts batch')))).
Proof.
  intros Hne. rewrite overall_metrics_value, summed_counts_app.
  by destruct (batch ++ batch').
Qed.

(** X20.  For a single evaluated message the overall metrics are that
    message's own counts and metrics. *)
Theorem overall_metrics_of_one (list_of_set : gset string → list string)
    (predicted ground_truth : pydict) (m : evaluation) :
  evaluate_classification list_of_set predicted ground_truth = Return m →
  overall_metrics [m]
  = Return (Some {| total_tp := true_positives m;
                    total_tn := true_negatives m;
                    total_fp := false_positives m;
                    total_fn := false_negatives m;
                    overall_accuracy := accuracy m;
                    overall_precision := precision m;
                    overall_recall := recall m;
                    overall_f1 := f1_score m |}).
Proof.
  rewrite evaluate_classification_value. intros [= <-].
  rewrite overall_metrics_value. unfold summed_counts, counts, evaluation_of.
  cbn [foldr true_positives true_negatives false_positives false_negatives
       accuracy precision recall f1_score add_counts overall_of].
  by rewrite !Nat.add_0_r.
Qed.

(** * The pipeline end to end *)

Section pipeline.
Variable list_of_set : gset string → list string.
Hypothesis list_of_set_perm : ∀ X, list_of_set X ≡ₚ elements X.
Variable json_loads : string → outcome json.
Variable build_prompt : string → list string → string.
Variable call_llm_api : string → string → outcome string.

(** X21.  The pipeline end to end: a dict returned by
    [classify_attachments], scored against a ground truth that classifies
    the same filenames, has every filename counted once and nothing
    reported missing or extra, whatever the model answered. *)
Theorem classified_then_evaluated (html_body : string)
    (attachment_filenames : list string) (api_key : string)
    (d ground_truth : pydict) (m : evaluation) :
  classify_attachments list_of_set json_loads build_prompt call_llm_api
      html_body attachment_filenames api_key = Return d →
  ids (get ground_truth "relevant") ∩ ids (get ground_truth "irrelevant") = ∅ →
  ids (get ground_truth "relevant") ∪ ids (get ground_truth "irrelevant")
    = ids attachment_filenames →
  evaluate_classification list_of_set d ground_truth = Return m →
  true_positives m + true_negatives m + false_positives m + false_negatives m
    = size (ids attachment_filenames)
  ∧ missing_attachments m = [] ∧ extra_attachments m = [].
Proof.
  intros Hd Hg Hgcover.
  apply (classify_attachments_splits _ list_of_set_perm) in Hd as [Hdisj Hcover].
  rewrite evaluate_classification_value. intros [= <-].
  rewrite <-Hgcover. apply evaluation_of_classifications; [done..|].
  by rewrite Hcover, Hgcover.
Qed.
End pipeline.

(** X18 on the two evaluated messages in both orders. *)
Lemma overall_metrics_any_order_witness :
  overall_metrics [first_evaluated; second_evaluated]
  = overall_metrics [second_evaluated; first_evaluated].
Proof.
  apply (overall_metrics_any_order [first_evaluated; second_evaluated]
           [second_evaluated; first_evaluated]).
  apply perm_swap.
Defined.

(** X19 on the two evaluated messages as two batches of one. *)
Lemma overall_metrics_of_two_batches_witness :
  overall_metrics ([first_evaluated] ++ [second_evaluated])
  = Return (Some (overall_of (add_counts (summed_counts [first_evaluated])
                                         (summed_counts [second_evaluated])))).
Proof.
  apply (overall_metrics_of_two_batches [first_evaluated] [second_evaluated]).
  discriminate.
Defined.

(** X20 on one evaluated message. *)
Lemma overall_metrics_of_one_witness :
  overall_metrics [evaluation_of elements tidy_prediction ground_truth_abc]
  = Return (Some
      {| total_tp := true_positives (evaluation_of elements tidy_prediction ground_truth_abc);
         total_tn := true_negatives (evaluation_of elements tidy_prediction ground_truth_abc);
         total_fp := false_positives (evaluation_of elements tidy_prediction ground_truth_abc);
         total_fn := false_negatives (evaluation_of elements tidy_prediction ground_truth_abc);
         overall_accuracy := accuracy (evaluation_of elements tidy_prediction ground_truth_abc);
         overall_precision := precision (evaluation_of elements tidy_prediction ground_truth_abc);
         overall_recall := recall (evaluation_of elements tidy_prediction ground_truth_abc);
         overall_f1 := f1_score (evaluation_of elements tidy_prediction ground_truth_abc) |}).
Proof.
  apply (overall_metrics_of_one elements tidy_prediction ground_truth_abc).
  apply evaluate_classification_value.
Defined.

(** X21 on an answer made of an empty object, for three filenames. *)
Lemma classified_then_evaluated_witness :
  true_positives (evaluation_of elements
      (repair elements [] [] ["a.pdf"; "b.pdf"; "c.png"]) ground_truth_abc)
    + true_negatives (evaluation_of elements
        (repair elements [] [] ["a.pdf"; "b.pdf"; "c.png"]) ground_truth_abc)
    + false_positives (evaluation_of elements
        (repair elements [] [] ["a.pdf"; "b.pdf"; "c.png"]) ground_truth_abc)
    + false_negatives (evaluation_of elements
        (repair elements [] [] ["a.pdf"; "b.pdf"; "c.png"]) ground_truth_abc)
    = size (ids ["a.pdf"; "b.pdf"; "c.png"])
  ∧ missing_attachments (evaluation_of elements
      (repair elements [] [] ["a.pdf"; "b.pdf"; "c.png"]) ground_truth_abc) = []
  ∧ extra_attachments (evaluation_of elements
      (repair elements [] [] ["a.pdf"; "b.pdf"; "c.png"]) ground_truth_abc) = [].
Proof.
  apply (classified_then_evaluated elements elements_enumeration loads_empty_object
           plain_prompt (answering "Here it is: {}") "<p>see the attached order</p>"
           ["a.pdf"; "b.pdf"; "c.png"] "key"
           (repair elements [] [] ["a.pdf"; "b.pdf"; "c.png"]) ground_truth_abc).
  - reflexivity.
  - apply (bool_decide_unpack _). by vm_compute.
  - apply (bool_decide_unpack _). by vm_compute.
  - apply evaluate_classification_value.
Defined.

(** * The cleaning of the body *)

Section normalizer_facts.
Variable is_space : string → bool.
(** Of the whitespace class the statements use that it holds the space and
    holds neither [<] nor [>]. *)
Hypothesis space_is_space : is_space " " = true.
Hypothesis lt_is_no_space : is_space "<" = false.
Hypothesis gt_is_no_space : is_space ">" = false.

Local Abbreviation skip := (skip_spaces is_space).
Local Abbreviation collapse := (collapse_spaces is_space).
Local Abbreviation gaps := (close_gaps is_space).
Local Abbreviation rstrip := (rstrip_spaces is_space).
Local Abbreviation strip := (strip_spaces is_space).
Local Abbreviation normalize := (normalize_spaces is_space).
Local Abbreviation single := (single_spaced is_space).
Local Abbreviation starts := (starts_with_space is_space).
Local Abbreviation ends := (ends_with_space is_space).
Local Abbreviation gap := (has_gap is_space).
Local Abbreviation no_space := (λ c : string, is_space c = false).

(** *** How the three steps act on a text read from left to right *)

Lemma collapse_other (c : string) (rest : list string) :
  is_space c = false → collapse (c :: rest) = c :: collapse rest.
Proof. intros Hc. cbn. by rewrite Hc. Qed.

Lemma collapse_run (run : list string) (rest : list string) :
  run ≠ [] → Forall (λ c, is_space c = true) run →
  starts rest = false →
  collapse (run ++ rest) = " " :: collapse rest.
Proof.
  intros Hne Hrun Hrest. induction Hrun as [|c run Hc Hrun IH]; [done|].
  cbn [app collapse_spaces]. rewrite Hc.
  destruct run as [|c' run].
  - cbn [app]. destruct rest as [|c' rest]; [done|].
    cbn in Hrest. by rewrite Hrest.
  - cbn [app]. inversion Hrun as [|? ? Hc' _]; subst. rewrite Hc'.
    by apply IH.
Qed.

Lemma gaps_other (c : string) (rest : list string) :
  c ≠ ">" → gaps (c :: rest) = c :: gaps rest.
Proof. intros Hc. cbn. by rewrite decide_False. Qed.

Lemma gaps_head (chars : list string) : starts (gaps chars) = starts chars.
Proof.
  destruct chars as [|c rest]; [done|]. cbn.
  repeat (case_match; try done).
Qed.

Lemma skip_run (run rest : list string) :
  Forall (λ c, is_space c = true) run → starts rest = false →
  skip (run ++ rest) = rest.
Proof.
  intros Hrun Hrest. induction Hrun as [|c run Hc Hrun IH].
  - destruct rest as [|c rest]; [done|]. cbn in *. by rewrite Hrest.
  - cbn. by rewrite Hc.
Qed.

Lemma gaps_run (run rest : list string) :
  Forall (λ c, is_space c = true) run → gaps (run ++ rest) = run ++ gaps rest.
Proof.
  induction 1 as [|c run Hc Hrun IH]; [done|].
  cbn [app]. rewrite gaps_other, IH; [done|].
  intros ->. congruence.
Qed.

(** A [>], a run of whitespace and a [<]: the run goes, and the
    substitution goes on after the [<]. *)
Lemma gaps_closed (run rest : list string) :
  run ≠ [] → Forall (λ c, is_space c = true) run →
  gaps (">" :: run ++ "<" :: rest) = ">" :: "<" :: gaps rest.
Proof.
  intros Hne Hrun. cbn [close_gaps]. rewrite decide_True by done.
  rewrite gaps_run by done. rewrite (gaps_other "<") by done.
  destruct run as [|c run]; [done|]. cbn [app].
  inversion Hrun as [|? ? Hc Hrun']; subst. rewrite Hc.
  change (c :: run ++ "<" :: gaps rest) with ((c :: run) ++ "<" :: gaps rest).
  rewrite skip_run by (done || by cbn). by rewrite decide_True.
Qed.

(** A [>] followed by anything else stays, and the substitution goes on
    with the next character. *)
Lemma gaps_open (rest : list string) :
  gap_before_tag is_space rest = false →
  gaps (">" :: rest) = ">" :: gaps rest.
Proof.
  intros Hgap. cbn [close_gaps]. rewrite decide_True by done.
  destruct (gaps rest) as [|c' sub] eqn:Hsub; [done|].
  destruct (is_space c') eqn:Hc'; [|done].
  destruct (skip (c' :: sub)) as [|c'' kept] eqn:Hskip; [done|].
  case_decide as Hlt; [|done]. subst c''. exfalso.
  pose proof (gaps_head rest) as Hhead. rewrite Hsub in Hhead. cbn in Hhead.
  destruct rest as [|c rest]; [done|]. cbn in Hhead.
  unfold gap_before_tag in Hgap. rewrite <-Hhead, Hc' in Hgap. cbn [andb] in Hgap.
  assert (∀ l, match skip (gaps l) with
               | c'' :: _ => bool_decide (c'' = "<")
               | [] => false
               end = match skip l with
                     | c'' :: _ => bool_decide (c'' = "<")
                     | [] => false
                     end) as Hsame.
  { clear -gt_is_no_space. induction l as [|c l IH]; [done|].
    destruct (is_space c) eqn:Hc.
    - rewrite gaps_other by (intros ->; congruence). cbn. by rewrite Hc.
    - pose proof (gaps_head (c :: l)) as Hhead. cbn in Hhead.
      destruct (gaps (c :: l)) as [|d sub] eqn:Hg.
      + cbn in Hg. repeat case_match; done.
      + assert (d = c) as ->.
        { cbn in Hg. repeat case_match; congruence. }
        cbn. by rewrite Hc. }
  rewrite <-Hsame, Hsub, Hskip in Hgap. by rewrite bool_decide_eq_true_2 in Hgap.
Qed.

(** *** One step of each function *)

Lemma collapse_step (c : string) (rest : list string) :
  collapse (c :: rest) =
  if is_space c
  then if starts rest then collapse rest else " " :: collapse rest
  else c :: collapse rest.
Proof. by destruct rest. Qed.

Lemma gaps_step (c : string) (rest : list string) :
  gaps (c :: rest) =
  if decide (c = ">")
  then if gap_before_tag is_space (gaps rest)
       then c :: skip (gaps rest) else c :: gaps rest
  else c :: gaps rest.
Proof.
  cbn [close_gaps]. case_decide; [|done]. unfold gap_before_tag.
  destruct (gaps rest) as [|c' sub]; [done|].
  destruct (is_space c'); [|done]. cbn [andb].
  destruct (skip (c' :: sub)) as [|c'' kept]; [done|].
  case_decide.
  - by rewrite bool_decide_eq_true_2.
  - by rewrite bool_decide_eq_false_2.
Qed.

Lemma skip_step (c : string) (rest : list string) :
  skip (c :: rest) = if is_space c then skip rest else c :: rest.
Proof. done. Qed.

Lemma rstrip_step (c : string) (rest : list string) :
  rstrip (c :: rest) =
  match rstrip rest with
  | [] => if is_space c then [] else [c]
  | kept => c :: kept
  end.
Proof. done. Qed.

Lemma single_cons (c : string) (rest : list string) :
  single (c :: rest) =
  (if is_space c then bool_decide (c = " ") && negb (starts rest) else true)
  && single rest.
Proof. by destruct rest. Qed.

Lemma collapse_head (chars : list string) : starts (collapse chars) = starts chars.
Proof.
  induction chars as [|c rest IH]; [done|]. rewrite collapse_step.
  destruct (is_space c) eqn:Hc; [|by cbn].
  destruct (starts rest) eqn:Hrest.
  - rewrite IH. cbn. by rewrite Hc.
  - cbn. by rewrite Hc.
Qed.

Lemma rstrip_head (chars kept : list string) (k : string) :
  rstrip chars = k :: kept → ∃ rest, chars = k :: rest.
Proof.
  destruct chars as [|c rest]; [done|]. rewrite rstrip_step.
  destruct (rstrip rest); [destruct (is_space c)|]; intros [= <- _]; by eexists.
Qed.

Lemma rstrip_prefix (chars : list string) : ∃ tail, chars = rstrip chars ++ tail.
Proof.
  induction chars as [|c rest [tail IH]]; [by exists []|].
  rewrite rstrip_step. destruct (rstrip rest) as [|k kept] eqn:Hkept.
  - destruct (is_space c); [by eexists|]. exists tail. cbn. by rewrite IH at 1.
  - exists tail. cbn. by rewrite IH at 1.
Qed.

Lemma skip_suffix (chars : list string) : ∃ run, chars = run ++ skip chars.
Proof.
  induction chars as [|c rest [run IH]]; [by exists []|].
  rewrite skip_step. destruct (is_space c); [|by exists []].
  exists (c :: run). cbn. by rewrite IH at 1.
Qed.

(** *** Single spaces *)

Lemma single_collapse (chars : list string) : single (collapse chars) = true.
Proof.
  induction chars as [|c rest IH]; [done|]. rewrite collapse_step.
  destruct (is_space c) eqn:Hc.
  - destruct (starts rest) eqn:Hrest; [done|].
    rewrite single_cons, space_is_space, collapse_head, Hrest, IH.
    by rewrite bool_decide_eq_true_2.
  - by rewrite single_cons, Hc, IH.
Qed.

Lemma single_tail (c : string) (rest : list string) :
  single (c :: rest) = true → single rest = true.
Proof. rewrite single_cons. by intros [_ ?]%andb_prop. Qed.

Lemma single_skip (chars : list string) :
  single chars = true → single (skip chars) = true.
Proof.
  induction chars as [|c rest IH]; [done|]. intros Hs. rewrite skip_step.
  destruct (is_space c); [|done]. apply IH. by apply single_tail in Hs.
Qed.

Lemma single_gaps (chars : list string) :
  single chars = true → single (gaps chars) = true.
Proof.
  induction chars as [|c rest IH]; [done|]. intros Hs.
  pose proof (single_tail _ _ Hs) as Hrest. specialize (IH Hrest).
  rewrite gaps_step. case_decide as Hc.
  - subst c. destruct (gap_before_tag is_space (gaps rest)).
    + rewrite single_cons, gt_is_no_space. by apply single_skip.
    + by rewrite single_cons, gt_is_no_space.
  - rewrite single_cons, gaps_head, IH. rewrite single_cons, Hrest in Hs.
    by rewrite andb_true_r in *.
Qed.

Lemma single_rstrip (chars : list string) :
  single chars = true → single (rstrip chars) = true.
Proof.
  induction chars as [|c rest IH]; [done|]. intros Hs.
  pose proof (single_tail _ _ Hs) as Hrest. specialize (IH Hrest).
  rewrite rstrip_step. destruct (rstrip rest) as [|k kept] eqn:Hkept.
  - destruct (is_space c) eqn:Hc; [done|]. by rewrite single_cons, Hc.
  - destruct (rstrip_head _ _ _ Hkept) as [rest' ->].
    rewrite single_cons, IH. rewrite single_cons, Hrest in Hs.
    by rewrite andb_true_r in *.
Qed.

Lemma single_normalize (chars : list string) : single (normalize chars) = true.
Proof.
  unfold normalize_spaces, strip_spaces.
  apply single_rstrip, single_skip, single_gaps, single_collapse.
Qed.

(** *** No whitespace at the ends *)

Lemma starts_skip (chars : list string) : starts (skip chars) = false.
Proof.
  induction chars as [|c rest IH]; [done|]. rewrite skip_step.
  destruct (is_space c) eqn:Hc; [done|]. by cbn.
Qed.

Lemma starts_rstrip (chars : list string) :
  starts chars = false → starts (rstrip chars) = false.
Proof.
  destruct chars as [|c rest]; [done|]. cbn [starts_with_space]. intros Hc.
  rewrite rstrip_step. destruct (rstrip rest); [by rewrite Hc|]. by cbn.
Qed.

Lemma ends_rstrip (chars : list string) : ends (rstrip chars) = false.
Proof.
  induction chars as [|c rest IH]; [done|]. rewrite rstrip_step.
  destruct (rstrip rest) as [|k kept].
  - destruct (is_space c) eqn:Hc; [done|]. by cbn.
  - done.
Qed.

Lemma starts_normalize (chars : list string) : starts (normalize chars) = false.
Proof. apply starts_rstrip, starts_skip. Qed.

Lemma ends_normalize (chars : list string) : ends (normalize chars) = false.
Proof. apply ends_rstrip. Qed.

(** *** No whitespace between two tags *)

Lemma gap_cons (c : string) (rest : list string) :
  gap (c :: rest) =
  (bool_decide (c = ">") && gap_before_tag is_space rest) || gap rest.
Proof. done. Qed.

Lemma gap_skip (chars : list string) : gap chars = false → gap (skip chars) = false.
Proof.
  induction chars as [|c rest IH]; [done|]. intros Hgap. rewrite skip_step.
  destruct (is_space c); [|done]. apply IH.
  rewrite gap_cons in Hgap. by apply orb_false_elim in Hgap as [_ ?].
Qed.

Lemma skip_app (chars tail : list string) :
  skip chars ≠ [] → skip (chars ++ tail) = skip chars ++ tail.
Proof.
  induction chars as [|c rest IH]; [done|]. cbn [app]. rewrite !skip_step.
  destruct (is_space c); [apply IH|done].
Qed.

Lemma gap_before_tag_app (chars tail : list string) :
  gap_before_tag is_space chars = true →
  gap_before_tag is_space (chars ++ tail) = true.
Proof.
  destruct chars as [|c rest]; [done|]. unfold gap_before_tag. cbn [app].
  intros [Hc Hskip]%andb_prop. rewrite Hc. cbn [andb].
  change (c :: rest ++ tail) with ((c :: rest) ++ tail).
  destruct (skip (c :: rest)) as [|c' kept] eqn:Hkept; [done|].
  rewrite skip_app by by rewrite Hkept. by rewrite Hkept.
Qed.

Lemma gap_app (chars tail : list string) :
  gap (chars ++ tail) = false → gap chars = false.
Proof.
  induction chars as [|c rest IH]; [done|]. cbn [app]. rewrite !gap_cons.
  intros [Hc Hrest]%orb_false_elim. rewrite (IH Hrest), orb_false_r.
  destruct (bool_decide (c = ">")); [|done]. cbn [andb] in *.
  destruct (gap_before_tag is_space rest) eqn:Hgap; [|done].
  by rewrite (gap_before_tag_app _ _ Hgap) in Hc.
Qed.

Lemma gap_rstrip (chars : list string) : gap chars = false → gap (rstrip chars) = false.
Proof.
  intros Hgap. destruct (rstrip_prefix chars) as [tail Htail].
  rewrite Htail in Hgap. by apply gap_app in Hgap.
Qed.

Lemma gap_gaps (chars : list string) : gap (gaps chars) = false.
Proof.
  induction chars as [|c rest IH]; [done|]. rewrite gaps_step.
  case_decide as Hc.
  - destruct (gap_before_tag is_space (gaps rest)) eqn:Hgap.
    + rewrite gap_cons, (gap_skip _ IH), orb_false_r.
      unfold gap_before_tag in *.
      destruct (gaps rest) as [|c' sub]; [done|].
      apply andb_prop in Hgap as [_ Hlt].
      destruct (skip (c' :: sub)) as [|c'' kept]; [done|].
      apply bool_decide_eq_true_1 in Hlt as ->.
      by rewrite lt_is_no_space, andb_false_r.
    + by rewrite gap_cons, Hgap, IH, andb_false_r.
  - by rewrite gap_cons, IH, bool_decide_eq_false_2.
Qed.

Lemma gap_normalize (chars : list string) : gap (normalize chars) = false.
Proof. apply gap_rstrip, gap_skip, gap_gaps. Qed.

(** *** What the three steps leave alone *)

Lemma collapse_fix (chars : list string) : single chars = true → collapse chars = chars.
Proof.
  induction chars as [|c rest IH]; [done|]. intros Hs.
  rewrite collapse_step, (IH (single_tail _ _ Hs)).
  rewrite single_cons in Hs. destruct (is_space c); [|done].
  apply andb_prop in Hs as [[Hc Hrest]%andb_prop _].
  apply bool_decide_eq_true_1 in Hc as ->.
  by apply negb_true_iff in Hrest as ->.
Qed.

Lemma gaps_fix (chars : list string) : gap chars = false → gaps chars = chars.
Proof.
  induction chars as [|c rest IH]; [done|]. rewrite gap_cons.
  intros [Hc Hrest]%orb_false_elim. rewrite gaps_step, (IH Hrest).
  case_decide as Hgt; [|done]. rewrite bool_decide_eq_true_2 in Hc by done.
  cbn [andb] in Hc. by rewrite Hc.
Qed.

Lemma skip_fix (chars : list string) : starts chars = false → skip chars = chars.
Proof. destruct chars as [|c rest]; [done|]. cbn. by intros ->. Qed.

Lemma rstrip_fix (chars : list string) : ends chars = false → rstrip chars = chars.
Proof.
  induction chars as [|c rest IH]; [done|]. rewrite rstrip_step.
  destruct rest as [|c' rest].
  - cbn. by intros ->.
  - intros Hends. by rewrite IH.
Qed.

Lemma normalize_fix (chars : list string) :
  single chars = true → starts chars = false → ends chars = false →
  gap chars = false → normalize chars = chars.
Proof.
  intros Hsingle Hstarts Hends Hgap. unfold normalize_spaces, strip_spaces.
  by rewrite collapse_fix, gaps_fix, skip_fix, rstrip_fix.
Qed.

(** *** The characters that are no whitespace *)

Lemma filter_collapse (chars : list string) :
  filter no_space (collapse chars) = filter no_space chars.
Proof.
  induction chars as [|c rest IH]; [done|]. rewrite collapse_step.
  destruct (is_space c) eqn:Hc.
  - rewrite (filter_cons_False _ c) by by rewrite Hc.
    destruct (starts rest); [done|].
    by rewrite filter_cons_False by by rewrite space_is_space.
  - by rewrite !filter_cons_True, IH by done.
Qed.

Lemma filter_skip (chars : list string) :
  filter no_space (skip chars) = filter no_space chars.
Proof.
  induction chars as [|c rest IH]; [done|]. rewrite skip_step.
  destruct (is_space c) eqn:Hc; [|done].
  by rewrite filter_cons_False by by rewrite Hc.
Qed.

Lemma filter_gaps (chars : list string) :
  filter no_space (gaps chars) = filter no_space chars.
Proof.
  induction chars as [|c rest IH]; [done|]. rewrite gaps_step.
  rewrite (filter_cons _ c rest).
  case_decide; [destruct (gap_before_tag is_space (gaps rest))|];
    rewrite filter_cons, ?filter_skip, IH; done.
Qed.

Lemma filter_rstrip (chars : list string) :
  filter no_space (rstrip chars) = filter no_space chars.
Proof.
  induction chars as [|c rest IH]; [done|]. rewrite rstrip_step.
  rewrite (filter_cons _ c rest), <-IH.
  destruct (rstrip rest) as [|k kept]; [|by rewrite filter_cons].
  destruct (is_space c) eqn:Hc.
  - by rewrite decide_False by done.
  - by rewrite decide_True, filter_cons_True by done.
Qed.

Lemma filter_normalize (chars : list string) :
  filter no_space (normalize chars) = filter no_space chars.
Proof.
  unfold normalize_spaces, strip_spaces.
  by rewrite filter_rstrip, filter_skip, filter_gaps, filter_collapse.
Qed.

(** *** The cleaned text and its characters *)

Lemma chars_collapse (chars : list string) :
  Forall (λ c, is_char c = true) chars →
  Forall (λ c, is_char c = true) (collapse chars).
Proof.
  induction 1 as [|c rest Hc Hrest IH]; [done|]. rewrite collapse_step.
  destruct (is_space c); [destruct (starts rest)|]; try done; by constructor.
Qed.

Lemma chars_skip (chars : list string) :
  Forall (λ c, is_char c = true) chars →
  Forall (λ c, is_char c = true) (skip chars).
Proof.
  destruct (skip_suffix chars) as [run Hrun]. rewrite Hrun at 1.
  by intros [_ ?]%Forall_app.
Qed.

Lemma chars_rstrip (chars : list string) :
  Forall (λ c, is_char c = true) chars →
  Forall (λ c, is_char c = true) (rstrip chars).
Proof.
  destruct (rstrip_prefix chars) as [tail Htail]. rewrite Htail at 1.
  by intros [? _]%Forall_app.
Qed.

Lemma chars_gaps (chars : list string) :
  Forall (λ c, is_char c = true) chars →
  Forall (λ c, is_char c = true) (gaps chars).
Proof.
  induction 1 as [|c rest Hc Hrest IH]; [done|]. rewrite gaps_step.
  case_decide; [destruct (gap_before_tag is_space (gaps rest))|];
    constructor; try done. by apply chars_skip.
Qed.

Lemma is_char_first (c : string) : is_char c = true → is_first_item c = true.
Proof. destruct c as [|a k]; [done|]. cbn. by intros [_ ?]%andb_prop. Qed.

Lemma text_items_chars (chars : list string) :
  Forall (λ c, is_char c = true) chars → text_items chars.
Proof. destruct 1 as [|c rest Hc Hrest]; [done|]. split; [by apply is_char_first|done]. Qed.

Lemma text_items_collapse (chars : list string) :
  text_items chars → text_items (collapse chars).
Proof.
  destruct chars as [|c rest]; [done|]. intros [Hc Hrest]. rewrite collapse_step.
  pose proof (chars_collapse _ Hrest) as Hcollapsed.
  destruct (is_space c); [destruct (starts rest)|].
  - by apply text_items_chars.
  - done.
  - done.
Qed.

Lemma text_items_gaps (chars : list string) : text_items chars → text_items (gaps chars).
Proof.
  destruct chars as [|c rest]; [done|]. intros [Hc Hrest]. rewrite gaps_step.
  pose proof (chars_gaps _ Hrest) as Hclosed.
  case_decide; [destruct (gap_before_tag is_space (gaps rest))|]; split; try done.
  by apply chars_skip.
Qed.

Lemma text_items_skip (chars : list string) : text_items chars → text_items (skip chars).
Proof.
  destruct chars as [|c rest]; [done|]. intros [Hc Hrest]. rewrite skip_step.
  destruct (is_space c); [|done]. by apply text_items_chars, chars_skip.
Qed.

Lemma text_items_rstrip (chars : list string) : text_items chars → text_items (rstrip chars).
Proof.
  destruct chars as [|c rest]; [done|]. intros [Hc Hrest]. rewrite rstrip_step.
  pose proof (chars_rstrip _ Hrest) as Hkept.
  destruct (rstrip rest); [destruct (is_space c)|]; done.
Qed.

Lemma text_items_normalize (chars : list string) :
  text_items chars → text_items (normalize chars).
Proof.
  intros Hchars.
  by apply text_items_rstrip, text_items_skip, text_items_gaps, text_items_collapse.
Qed.

Lemma chars_from_shape (s : string) :
  all_continuation (chars_from s).1 = true
  ∧ Forall (λ c, is_char c = true) (chars_from s).2.
Proof.
  induction s as [|a s [IHc IHr]]; [done|]. cbn [chars_from].
  destruct (chars_from s) as [continuation rest]. cbn [fst snd] in *.
  destruct (is_continuation_byte a) eqn:Ha; cbn [fst snd].
  - split; [|done]. cbn. by rewrite Ha.
  - split; [done|]. constructor; [|done]. cbn. by rewrite Ha.
Qed.

Lemma text_items_str_chars (s : string) : text_items (str_chars s).
Proof.
  unfold str_chars. pose proof (chars_from_shape s) as [Hc Hr].
  destruct (chars_from s) as [continuation rest]. cbn [fst snd] in *.
  case_decide.
  - by apply text_items_chars.
  - split; [|done]. destruct continuation as [|a k]; [done|].
    cbn [all_continuation is_first_item] in *. by apply andb_prop in Hc as [_ ?].
Qed.

Lemma append_empty (s : string) : s +:+ EmptyString = s.
Proof. induction s as [|a s IH]; [done|]. by rewrite append_cons, IH. Qed.

Lemma chars_from_continuation (k s : string) :
  all_continuation k = true →
  chars_from (k +:+ s) = (k +:+ (chars_from s).1, (chars_from s).2).
Proof.
  induction k as [|a k IH].
  - intros _. rewrite !append_nil. by destruct (chars_from s).
  - cbn [all_continuation]. intros [Ha Hk]%andb_prop.
    rewrite !append_cons. cbn [chars_from]. rewrite (IH Hk). by rewrite Ha.
Qed.

Lemma chars_from_join (chars : list string) :
  Forall (λ c, is_char c = true) chars → chars_from (join chars) = (EmptyString, chars).
Proof.
  induction 1 as [|c rest Hc Hrest IH]; [done|].
  destruct c as [|a k]; [done|]. cbn [is_char] in Hc.
  apply andb_prop in Hc as [Ha%negb_true_iff Hk].
  change (join (String a k :: rest)) with (String a (k +:+ join rest)).
  cbn [chars_from]. rewrite (chars_from_continuation _ _ Hk), IH.
  cbn [fst snd]. by rewrite Ha, append_empty.
Qed.

(** Putting the characters of a text together and taking the text apart
    again gives the same characters. *)
Lemma str_chars_join (chars : list string) :
  text_items chars → str_chars (join chars) = chars.
Proof.
  destruct chars as [|c rest]; [done|]. intros [Hc Hrest].
  destruct c as [|a k]; [done|]. cbn [is_first_item] in Hc.
  unfold str_chars.
  change (join (String a k :: rest)) with (String a (k +:+ join rest)).
  cbn [chars_from]. rewrite (chars_from_continuation _ _ Hc), chars_from_join by done.
  cbn [fst snd]. rewrite append_empty.
  destruct (is_continuation_byte a); [by rewrite decide_False|by rewrite decide_True].
Qed.

Variable unescape : string → string.
Local Abbreviation clean := (clean_html_for_analysis unescape is_space).

Lemma str_chars_clean (html : string) :
  str_chars (clean html) =
  if decide (html = EmptyString) then []
  else normalize (str_chars (unescape html)).
Proof.
  unfold clean_html_for_analysis. case_decide; [done|].
  apply str_chars_join, text_items_normalize, text_items_str_chars.
Qed.

(** X24 (lines 84-90 of [clean_html_for_analysis]): in the cleaned text
    every whitespace character is one space with no whitespace after it,
    and the text neither begins nor ends with whitespace. *)
Theorem clean_html_single_spaced_and_trimmed (html : string) :
  single_spaced is_space (str_chars (clean html)) = true
  ∧ starts_with_space is_space (str_chars (clean html)) = false
  ∧ ends_with_space is_space (str_chars (clean html)) = false.
Proof.
  rewrite str_chars_clean. case_decide; [done|].
  split_and!; [apply single_normalize|apply starts_normalize|apply ends_normalize].
Qed.

(** X25 (lines 86-88 of [clean_html_for_analysis]): in the cleaned text no
    [>] is followed by whitespace and then a [<]. *)
Theorem clean_html_no_space_between_tags (html : string) :
  has_gap is_space (str_chars (clean html)) = false.
Proof. rewrite str_chars_clean. case_decide; [done|]. apply gap_normalize. Qed.

(** X26 (lines 84-90 of [clean_html_for_analysis]): cleaning takes away and
    replaces whitespace only; the other characters of the unescaped text
    are all kept, in their order. *)
Theorem clean_html_keeps_other_characters (html : string) :
  unescape EmptyString = EmptyString →
  filter (λ c, is_space c = false) (str_chars (clean html))
  = filter (λ c, is_space c = false) (str_chars (unescape html)).
Proof.
  intros Hempty. rewrite str_chars_clean. case_decide as Hhtml.
  - by rewrite Hhtml, Hempty.
  - apply filter_normalize.
Qed.

(** X27 (lines 75-90 of [clean_html_for_analysis]): a cleaned text that
    unescaping leaves as it is, is cleaned to itself. *)
Theorem clean_html_again (html : string) :
  unescape (clean_html_for_analysis unescape is_space html)
    = clean_html_for_analysis unescape is_space html →
  clean_html_for_analysis unescape is_space
      (clean_html_for_analysis unescape is_space html)
    = clean_html_for_analysis unescape is_space html.
Proof.
  intros Hsame. unfold clean_html_for_analysis at 1. case_decide as Hout; [done|].
  rewrite Hsame, str_chars_clean.
  unfold clean_html_for_analysis. case_decide; [done|].
  f_equal. apply normalize_fix;
    [apply single_normalize|apply starts_normalize|apply ends_normalize|apply gap_normalize].
Qed.
End normalizer_facts.

(** X24 on a body with runs of whitespace and the ASCII whitespace class. *)
Lemma clean_html_single_spaced_and_trimmed_witness :
  single_spaced ascii_space
    (str_chars (clean_html_for_analysis unescape_nothing ascii_space spaced_body)) = true
  ∧ starts_with_space ascii_space
      (str_chars (clean_html_for_analysis unescape_nothing ascii_space spaced_body)) = false
  ∧ ends_with_space ascii_space
      (str_chars (clean_html_for_analysis unescape_nothing ascii_space spaced_body)) = false.
Proof.
  apply (clean_html_single_spaced_and_trimmed ascii_space); reflexivity.
Defined.

(** X25 on the same body. *)
Lemma clean_html_no_space_between_tags_witness :
  has_gap ascii_space
    (str_chars (clean_html_for_analysis unescape_nothing ascii_space spaced_body)) = false.
Proof.
  apply (clean_html_no_space_between_tags ascii_space); reflexivity.
Defined.

(** X26 on the same body. *)
Lemma clean_html_keeps_other_characters_witness :
  filter (λ c, ascii_space c = false)
    (str_chars (clean_html_for_analysis unescape_nothing ascii_space spaced_body))
  = filter (λ c, ascii_space c = false) (str_chars (unescape_nothing spaced_body)).
Proof.
  apply (clean_html_keeps_other_characters ascii_space); reflexivity.
Defined.

(** X27 on the same body. *)
Lemma clean_html_again_witness :
  clean_html_for_analysis unescape_nothing ascii_space
    (clean_html_for_analysis unescape_nothing ascii_space spaced_body)
  = clean_html_for_analysis unescape_nothing ascii_space spaced_body.
Proof.
  apply (clean_html_again ascii_space); reflexivity.
Defined.

(** * The truncation of the body *)

Lemma length_truncation_marker : length truncation_marker = 15.
Proof. reflexivity. Qed.

(** X28 (lines 292-295 of [classify_attachments]): the body set into the
    prompt has at most 200000 characters and the 15 of the marker; its
    first 200000 characters are those of the cleaned body; a cleaned body
    of at most 200000 characters is not changed, a longer one ends with the
    marker. *)
Theorem truncate_html_bounds (cleaned_html : list string) :
  (N.of_nat (length (truncate_html cleaned_html)) ≤ max_html_length + 15)%N
  ∧ take (N.to_nat max_html_length) (truncate_html cleaned_html)
    = take (N.to_nat max_html_length) cleaned_html
  ∧ (if decide (N.of_nat (length cleaned_html) ≤ max_html_length)%N
     then truncate_html cleaned_html = cleaned_html
     else N.of_nat (length (truncate_html cleaned_html)) = (max_html_length + 15)%N
          ∧ drop (N.to_nat max_html_length) (truncate_html cleaned_html)
            = truncation_marker).
Proof.
  unfold truncate_html. generalize max_html_length. intros limit.
  case_decide as Hlong.
  - assert (length (take (N.to_nat limit) cleaned_html) = N.to_nat limit) as Htake.
    { rewrite length_take. lia. }
    rewrite length_app, Htake, length_truncation_marker.
    split; [lia|]. split.
    + rewrite take_app_le by lia. by rewrite take_take, Nat.min_id.
    + rewrite decide_False by lia. split; [lia|].
      rewrite drop_app_length'; done.
  - split; [lia|]. split; [done|]. by rewrite decide_True by lia.
Qed.

(** * One message from its parts to its result *)

Section one_message_facts.
Variable list_of_set : gset string → list string.
Hypothesis list_of_set_perm : ∀ X, list_of_set X ≡ₚ elements X.
Variable decode_utf8_ignore : list Byte.byte → string.
Variable search_filename : string → option string.
Variable search_name : string → option string.
Variable matches_convention : string → bool.
Variable json_loads : string → outcome json.
Variable build_prompt : string → list string → string.
Variable call_llm_api : string → string → outcome string.

Local Abbreviation part_name :=
  (attachment_name search_filename search_name matches_convention).
Local Abbreviation extracted :=
  (extract_html_body_and_attachments list_of_set decode_utf8_ignore
     search_filename search_name matches_convention).
Local Abbreviation result_of :=
  (message_result list_of_set decode_utf8_ignore search_filename search_name
     matches_convention json_loads build_prompt call_llm_api).

(** The result is that of the classification of what was extracted, also
    when nothing was. *)
Lemma message_result_classify (msg : Message) (api_key : string) :
  result_of msg api_key
  = '(html_body, attachments) ← extracted msg;
    classify_attachments list_of_set json_loads build_prompt call_llm_api
      html_body attachments api_key.
Proof.
  unfold message_result. destruct (extracted msg) as [[html_body attachments]|e];
    run_outcome; [|done].
  by destruct attachments.
Qed.

(** X29 (lines 356-369 of [main]): in the result returned for a message,
    the names listed are exactly the names of the parts of the message that
    have one, and no name is in both lists, whatever the model answered. *)
Theorem message_result_classifies_every_attachment (msg : Message)
    (api_key : string) (d : pydict) (x : string) :
  result_of msg api_key = Return d →
  (x ∈ get d "relevant" ∨ x ∈ get d "irrelevant"
   ↔ ∃ part, part ∈ walk msg ∧ part_name part = Return (Some x))
  ∧ ¬ (x ∈ get d "relevant" ∧ x ∈ get d "irrelevant").
Proof.
  rewrite message_result_classify.
  destruct (extracted msg) as [[html_body attachments]|e] eqn:Hextracted;
    run_outcome; [|done].
  intros Hd. apply (classify_attachments_splits _ list_of_set_perm) in Hd as [Hdisj Hcover].
  apply extract_Return in Hextracted as (_ & names & Hnames & ->).
  rewrite ids_sorted in Hcover. split.
  - rewrite <-(elem_of_names _ _ _ _ _ _ Hnames).
    assert (x ∈ ids (get d "relevant") ∪ ids (get d "irrelevant")
            ↔ x ∈ omap id names) as Hx.
    { rewrite Hcover, elem_of_ids.
      by rewrite list_of_set_perm, elem_of_elements, elem_of_list_to_set. }
    by rewrite elem_of_union, !elem_of_ids in Hx.
  - rewrite <-!elem_of_ids. set_solver.
Qed.

(** X30 (lines 356-365 of [main]): a message for none of whose parts a name
    is found, and in which no header search raises, gets the result with
    two empty lists, whatever the call of the model would have done. *)
Theorem message_without_attachments (msg : Message) (api_key : string) :
  (∀ part, part ∈ walk msg → part_name part = Return None) →
  result_of msg api_key = Return (classification [] []).
Proof.
  intros Hnone. unfold message_result. rewrite extract_value.
  destruct (mapM_outcome_returns part_name (walk msg)) as [names Hnames];
    [by eauto|].
  rewrite Hnames. run_outcome.
  apply mapM_outcome_Return in Hnames.
  assert (omap id names = []) as ->.
  { apply elem_of_nil_inv. intros x Hx.
    apply (elem_of_names _ _ _ _ _ _ Hnames) in Hx as (part & Hpart & Hname).
    rewrite (Hnone part Hpart) in Hname. congruence. }
  rewrite list_to_set_nil, (list_of_set_empty _ list_of_set_perm). done.
Qed.
End one_message_facts.

(** X29 on the message with a PDF, a nameless logo and an attached HTML
    file, and an answer made of an empty object. *)
Lemma message_result_classifies_every_attachment_witness :
  message_result elements decode_wellformed after_equals after_equals
      starts_with_example loads_empty_object plain_prompt
      (answering "Here it is: {}") message_with_attachments "key"
    = Return (classification [] ["example_7_attachment_01.pdf"])
  ∧ ("example_7_attachment_01.pdf"
       ∈ get (classification [] ["example_7_attachment_01.pdf"]) "relevant"
     ∨ "example_7_attachment_01.pdf"
       ∈ get (classification [] ["example_7_attachment_01.pdf"]) "irrelevant"
     ↔ ∃ part, part ∈ walk message_with_attachments
         ∧ attachment_name after_equals after_equals starts_with_example part
           = Return (Some "example_7_attachment_01.pdf"))
  ∧ ¬ ("example_7_attachment_01.pdf"
         ∈ get (classification [] ["example_7_attachment_01.pdf"]) "relevant"
       ∧ "example_7_attachment_01.pdf"
         ∈ get (classification [] ["example_7_attachment_01.pdf"]) "irrelevant").
Proof.
  assert (message_result elements decode_wellformed after_equals after_equals
              starts_with_example loads_empty_object plain_prompt
              (answering "Here it is: {}") message_with_attachments "key"
            = Return (classification [] ["example_7_attachment_01.pdf"])) as Hd
    by (by vm_compute).
  split; [exact Hd|].
  exact (message_result_classifies_every_attachment elements elements_enumeration
           decode_wellformed after_equals after_equals starts_with_example
           loads_empty_object plain_prompt (answering "Here it is: {}")
           message_with_attachments "key"
           (classification [] ["example_7_attachment_01.pdf"])
           "example_7_attachment_01.pdf" Hd).
Defined.

(** X30 on a message of two HTML parts and a call that would fail. *)
Lemma message_without_attachments_witness :
  message_result elements decode_wellformed after_equals after_equals
      starts_with_example loads_nothing plain_prompt failing_request
      two_html_parts "key"
    = Return (classification [] []).
Proof.
  apply (message_without_attachments elements elements_enumeration).
  intros part Hpart. cbn [walk two_html_parts] in Hpart.
  repeat (apply elem_of_cons in Hpart as [->|Hpart]; [reflexivity|]).
  by apply elem_of_nil in Hpart.
Defined.

(** On the message with a raw header nothing is returned: the [TypeError]
    of the extraction is an [Exception], which the handler of [main]
    catches. *)
Lemma message_result_raises_on_raw_header :
  message_result elements decode_wellformed after_equals after_equals
      starts_with_example loads_nothing plain_prompt failing_request
      message_with_raw_header "key"
    = Raise TypeError
  ∧ is_Exception TypeError = true.
Proof. split; reflexivity. Qed.
